(** * chat2api, [api/tokens.py]: token accounting

    A shallow embedding of the four functions of [api/tokens.py]
    ([calculate_image_tokens], [num_tokens_from_messages],
    [num_tokens_from_content], [split_tokens_from_content]) and the
    properties of them that the specification states; then of the file
    helpers of [api/files.py] ([get_file_content],
    [determine_file_use_case], [get_file_extension]).

    Python [int] is [Z]; Python [float] is IEEE 754 binary64, taken from
    the Standard Library's [SpecFloat] ([prec = 53], [emax = 1024]);
    Python [str] is [string]; a [dict] is an association list in
    insertion order; what a message holds is a [value]; an exception is
    a value of [exn] carried by [result]. *)

From Stdlib Require Import ZArith List String Ascii Bool Lia.
From Stdlib Require Import Floats.SpecFloat.
From Stdlib Require Import QArith Qpower Lqa.
Import ListNotations.

Local Open Scope string_scope.
Local Open Scope Z_scope.

(** ** Exceptions *)

Module Py.

Inductive exn : Type :=
| KeyError
| TypeError
| ValueError
| OverflowError
| ZeroDivisionError
| AttributeError.

Inductive result (A : Type) : Type :=
| Ok (a : A)
| Raise (e : exn).

Arguments Ok {A} a.
Arguments Raise {A} e.

Definition bind {A B : Type} (c : result A) (k : A -> result B) : result B :=
  match c with
  | Ok a => k a
  | Raise e => Raise e
  end.

(** ** Dictionaries

    [d.get(k)] on an association list: the value of the first entry whose
    key is [k], [None] when there is none. *)

Fixpoint get {V : Type} (k : string) (d : list (string * V)) : option V :=
  match d with
  | [] => None
  | (k', v) :: rest => if String.eqb k k' then Some v else get k rest
  end.

(** [len(l)] *)
Definition len {A : Type} (l : list A) : Z := Z.of_nat (List.length l).

(** [l[:n]]: the first [n] elements for [n >= 0]; for [n < 0] all but the
    last [-n] elements (nothing when [-n] exceeds the length). *)
Definition slice_to {A : Type} (l : list A) (n : Z) : list A :=
  if 0 <=? n then firstn (Z.to_nat n) l
  else firstn (Z.to_nat (len l + n)) l.

(** ** Floats

    Python's [float] is binary64. *)

Definition prec : Z := 53.
Definition emax : Z := 1024.

Definition float : Type := spec_float.

(** [float(n)] for an [int], as in [n * x] with [x] a float: the nearest
    binary64 (ties to even), [OverflowError] when that is out of range. *)
Definition float_of_int (n : Z) : result float :=
  match binary_normalize prec emax n 0 false with
  | S754_infinity _ => Raise OverflowError
  | f => Ok f
  end.

(** [a / b] on two [int]s: the quotient of the two integers, rounded once
    to the nearest binary64 ([ZeroDivisionError] on [b = 0],
    [OverflowError] when the quotient is out of range, a zero when it
    underflows).  The integers go to [SFdiv] as mantissas with exponent 0,
    whatever their size: its division works on the mantissas as integers
    and rounds the quotient once. *)
Definition int_truediv (a b : Z) : result float :=
  if b =? 0 then Raise ZeroDivisionError
  else if a =? 0 then Ok (S754_zero (b <? 0))
  else
    match SFdiv prec emax
            (S754_finite (a <? 0) (Z.to_pos (Z.abs a)) 0)
            (S754_finite (b <? 0) (Z.to_pos (Z.abs b)) 0) with
    | S754_infinity _ => Raise OverflowError
    | f => Ok f
    end.

(** [n * x] with [n] an [int] and [x] a [float]. *)
Definition int_mul_float (n : Z) (x : float) : result float :=
  match float_of_int n with
  | Ok y => Ok (SFmul prec emax y x)
  | Raise e => Raise e
  end.

(** [int(x)]: truncation towards zero. *)
Definition int_of_float (x : float) : result Z :=
  match x with
  | S754_zero _ => Ok 0
  | S754_finite s m e => Ok (cond_Zopp s (Z.shiftl (Zpos m) e))
  | S754_infinity _ => Raise OverflowError
  | S754_nan => Raise ValueError
  end.

(** [math.ceil(x)] *)
Definition ceil (x : float) : result Z :=
  match x with
  | S754_zero _ => Ok 0
  | S754_finite s m e => Ok (- Z.shiftl (- cond_Zopp s (Zpos m)) e)
  | S754_infinity _ => Raise OverflowError
  | S754_nan => Raise ValueError
  end.

End Py.

Notation "x <- c ;; k" := (Py.bind c (fun x => k))
  (at level 61, c at next level, right associativity).
Notation "' pat <- c ;; k" := (Py.bind c (fun x => match x with pat => k end))
  (at level 61, pat pattern, c at next level, right associativity).

Import Py.

(** ** The value of a float

    Used to state how far a rounded result is from the exact one. *)

Definition pow2 (e : Z) : Q := Qpower 2 e.

Definition F2Q (x : float) : Q :=
  match x with
  | S754_finite s m e => inject_Z (cond_Zopp s (Zpos m)) * pow2 e
  | _ => 0
  end.

(** The distance from 1 to the next binary64, twice the rounding unit:
    the relative error bound used below. *)
Definition eps : Q := pow2 (-52).

(** The smallest positive binary64. *)
Definition eta : Q := pow2 (-1074).

(** A float that is zero or finite, and not negative. *)
Definition nonneg_finite (x : float) : Prop :=
  match x with
  | S754_zero false | S754_finite false _ _ => True
  | _ => False
  end.

(** The same, with plus infinity. *)
Definition nonneg (x : float) : Prop :=
  match x with
  | S754_zero false | S754_finite false _ _ | S754_infinity false => True
  | _ => False
  end.

(** The magnitude and the exponent of a float, [-1074] for zero. *)
Definition mag (x : float) : Z :=
  match x with
  | S754_finite _ m e => Zdigits2 (Zpos m) + e
  | _ => -1074
  end.

Definition expo (x : float) : Z :=
  match x with
  | S754_finite _ _ e => e
  | _ => -1074
  end.

(** ** Chat messages

    A message is a dict with string keys, as a JSON body gives it; its
    values are JSON values.  The code looks at most two levels down: at
    the value of a field, at the items of a list, and at what an item
    holds under ["type"] and ["text"]. *)

#[warnings="-register-all"]
Inductive value : Type :=
| VNone
| VBool (b : bool)
| VInt (n : Z)
| VFloat (x : float)
| VStr (s : string)
| VList (items : list value)
| VDict (fields : list (string * value)).

Definition message : Type := list (string * value).

(** [item.get(key)]: only a dict has the method. *)
Definition item_get (item : value) (key : string) : result (option value) :=
  match item with
  | VDict fields => Ok (get key fields)
  | _ => Raise AttributeError
  end.

(** [v == s] for what [get] gave and a string [s]; a value that is not a
    string is not equal to one. *)
Definition eq_str (v : option value) (s : string) : bool :=
  match v with
  | Some (VStr s') => String.eqb s' s
  | _ => false
  end.

(** ** The tokenizer library

    [tiktoken] is outside the repository.  An [Encoding] is abstract, with
    its [decode] and its [encode] on a string, which returns the tokens
    or raises ([ValueError] on a text that holds a special token such as
    ["<|endoftext|>"]); [encoding_for_model] is
    [tiktoken.encoding_for_model] on a string, [None] standing for the
    [KeyError] it raises on a name it does not know; [cl100k_base] is
    [tiktoken.get_encoding("cl100k_base")]. *)

Class Tiktoken : Type := {
  Encoding : Type;
  encode : Encoding -> string -> result (list Z);
  decode : Encoding -> list Z -> string;
  encoding_for_model : string -> option Encoding;
  cl100k_base : Encoding
}.

Section Tokens.

Context {tk : Tiktoken}.

(** The [try: ... except KeyError: ...] block that opens the three token
    functions. *)
Definition resolve_encoding (model : string) : Encoding :=
  match encoding_for_model model with
  | Some encoding => encoding
  | None => cl100k_base
  end.

(** [encoding.encode(v)] on what a dict held or [get] gave: [TypeError]
    unless [v] is a string. *)
Definition encode_text (encoding : Encoding) (v : option value)
  : result (list Z) :=
  match v with
  | Some (VStr s) => encode encoding s
  | _ => Raise TypeError
  end.

(** [for item in value: ...] with the running total [num_tokens]. *)
Fixpoint count_items (encoding : Encoding) (items : list value) (num_tokens : Z)
  : result Z :=
  match items with
  | [] => Ok num_tokens
  | item :: rest =>
      type <- item_get item "type" ;;
      num_tokens <-
        (if eq_str type "text"
         then text <- item_get item "text" ;;
              toks <- encode_text encoding text ;;
              Ok (num_tokens + len toks)
         else Ok num_tokens) ;;
      type <- item_get item "type" ;;
      num_tokens <-
        (if eq_str type "image_url" then Ok num_tokens else Ok num_tokens) ;;
      count_items encoding rest num_tokens
  end.

(** [for key, value in message.items(): ...] *)
Fixpoint count_fields (encoding : Encoding) (fields : message) (num_tokens : Z)
  : result Z :=
  match fields with
  | [] => Ok num_tokens
  | (_, value) :: rest =>
      num_tokens <-
        match value with
        | VList items => count_items encoding items num_tokens
        | _ =>
            toks <- encode_text encoding (Some value) ;;
            Ok (num_tokens + len toks)
        end ;;
      count_fields encoding rest num_tokens
  end.

Definition tokens_per_message (model : string) : Z :=
  if String.eqb model "gpt-3.5-turbo-0301" then 4 else 3.

(** [for message in messages: ...] *)
Fixpoint count_messages (encoding : Encoding) (tokens_per_message : Z)
  (messages : list message) (num_tokens : Z) : result Z :=
  match messages with
  | [] => Ok num_tokens
  | message :: rest =>
      let num_tokens := num_tokens + tokens_per_message in
      num_tokens <- count_fields encoding message num_tokens ;;
      let num_tokens := num_tokens + 3 in
      count_messages encoding tokens_per_message rest num_tokens
  end.

Definition num_tokens_from_messages (messages : list message) (model : string)
  : result Z :=
  let encoding := resolve_encoding model in
  let tokens_per_message := tokens_per_message model in
  let num_tokens := 0 in
  count_messages encoding tokens_per_message messages num_tokens.

Definition num_tokens_from_content (content : string) (model : string)
  : result Z :=
  let encoding := resolve_encoding model in
  encoded_content <- encode encoding content ;;
  let len_encoded_content := len encoded_content in
  Ok len_encoded_content.

Definition split_tokens_from_content (content : string) (max_tokens : Z)
  (model : string) : result (string * Z * string) :=
  let encoding := resolve_encoding model in
  encoded_content <- encode encoding content ;;
  let len_encoded_content := len encoded_content in
  if len_encoded_content >=? max_tokens then
    let content := decode encoding (slice_to encoded_content max_tokens) in
    Ok (content, max_tokens, "length")
  else
    Ok (content, len_encoded_content, "stop").

End Tokens.

(** ** Image tokens *)

(** [int(x * scale_factor)] *)
Definition scaled (x : Z) (scale_factor : float) : result Z :=
  y <- int_mul_float x scale_factor ;;
  int_of_float y.

Definition calculate_image_tokens (width height : Z) (detail : string)
  : result Z :=
  if String.eqb detail "low" then Ok 85
  else
    let max_dimension := Z.max width height in
    '(new_width, new_height) <-
      (if max_dimension >? 2048 then
         scale_factor <- int_truediv 2048 max_dimension ;;
         new_width <- scaled width scale_factor ;;
         new_height <- scaled height scale_factor ;;
         Ok (new_width, new_height)
       else Ok (width, height)) ;;
    let width := new_width in
    let height := new_height in
    let min_dimension := Z.min width height in
    '(new_width, new_height) <-
      (if min_dimension >? 768 then
         scale_factor <- int_truediv 768 min_dimension ;;
         new_width <- scaled width scale_factor ;;
         new_height <- scaled height scale_factor ;;
         Ok (new_width, new_height)
       else Ok (width, height)) ;;
    let width := new_width in
    let height := new_height in
    q_w <- int_truediv width 512 ;;
    num_masks_w <- ceil q_w ;;
    q_h <- int_truediv height 512 ;;
    num_masks_h <- ceil q_h ;;
    let total_masks := num_masks_w * num_masks_h in
    let tokens_per_mask := 170 in
    let total_tokens := total_masks * tokens_per_mask + 85 in
    Ok total_tokens.

(** ** The image estimate, as the specification words it *)

(** Both sides times [target / side], each truncated. *)
Definition scale_to (target side width height : Z) : result (Z * Z) :=
  scale_factor <- int_truediv target side ;;
  new_width <- scaled width scale_factor ;;
  new_height <- scaled height scale_factor ;;
  Ok (new_width, new_height).

(** First stage: the larger side is brought down to 2048. *)
Definition limit_larger_side (width height : Z) : result (Z * Z) :=
  if Z.max width height >? 2048
  then scale_to 2048 (Z.max width height) width height
  else Ok (width, height).

(** Second stage: the smaller side is brought down to 768. *)
Definition limit_smaller_side (width height : Z) : result (Z * Z) :=
  if Z.min width height >? 768
  then scale_to 768 (Z.min width height) width height
  else Ok (width, height).

(** The ceiling of [a / b], on integers. *)
Definition ceil_div (a b : Z) : Z := (a + b - 1) / b.

Definition tile_tokens (width height : Z) : Z :=
  ceil_div width 512 * ceil_div height 512 * 170 + 85.

(** [math.ceil(x / 512)] *)
Definition masks (x : Z) : result Z :=
  q <- int_truediv x 512 ;; ceil q.

Definition masks_exact (x : Z) : bool :=
  match masks x with
  | Ok n => n =? ceil_div x 512
  | Raise _ => false
  end.

(** ** The message count, as the specification words it *)

Section TokensSpec.

Context {tk : Tiktoken}.

Definition sum (l : list Z) : Z := fold_right Z.add 0 l.

(** The token count of a text, where the encoding accepts it. *)
Definition text_tokens (encoding : Encoding) (s : string) : Z :=
  match encode encoding s with
  | Ok toks => len toks
  | Raise _ => 0
  end.

(** A part of type ["text"] costs the tokens of its text, a part of type
    ["image_url"] costs nothing (nor does a part of any other type). *)
Definition part_tokens (encoding : Encoding) (item : value) : Z :=
  match item with
  | VDict fields =>
      if eq_str (get "type" fields) "text" then
        match get "text" fields with
        | Some (VStr s) => text_tokens encoding s
        | _ => 0
        end
      else if eq_str (get "type" fields) "image_url" then 0
      else 0
  | _ => 0
  end.

Definition field_tokens (encoding : Encoding) (v : value) : Z :=
  match v with
  | VList items => sum (map (part_tokens encoding) items)
  | VStr s => text_tokens encoding s
  | _ => 0
  end.

(** The tokens of the values of one message, overheads apart. *)
Definition fields_tokens (encoding : Encoding) (m : message) : Z :=
  sum (map (fun kv => field_tokens encoding (snd kv)) m).

Definition message_tokens (encoding : Encoding) (per_message_overhead : Z)
  (m : message) : Z :=
  per_message_overhead + fields_tokens encoding m + 3.

(** What is wrong with a value that is to be tokenized: it is not a
    string ([TypeError]), or the encoding refuses it. *)
Definition text_fault (encoding : Encoding) (v : option value) : option exn :=
  match v with
  | Some (VStr s) =>
      match encode encoding s with
      | Ok _ => None
      | Raise e => Some e
      end
  | _ => Some TypeError
  end.

(** What is wrong with an item of a list: it is not a dict
    ([AttributeError]), or it is of type ["text"] and its text is at
    fault. *)
Definition part_fault (encoding : Encoding) (item : value) : option exn :=
  match item with
  | VDict fields =>
      if eq_str (get "type" fields) "text"
      then text_fault encoding (get "text" fields)
      else None
  | _ => Some AttributeError
  end.

(** The first fault in a list, in reading order. *)
Fixpoint first_fault {A : Type} (f : A -> option exn) (l : list A)
  : option exn :=
  match l with
  | [] => None
  | a :: rest =>
      match f a with
      | Some e => Some e
      | None => first_fault f rest
      end
  end.

Definition field_fault (encoding : Encoding) (v : value) : option exn :=
  match v with
  | VList items => first_fault (part_fault encoding) items
  | _ => text_fault encoding (Some v)
  end.

Definition message_fault (encoding : Encoding) (m : message) : option exn :=
  first_fault (fun kv => field_fault encoding (snd kv)) m.

Definition fault (encoding : Encoding) (messages : list message)
  : option exn :=
  first_fault (message_fault encoding) messages.

(** The shape of section 3 of the specification, on which nothing is at
    fault: every value of a field is a string or a list of dicts, every
    part of type ["text"] carries a string under ["text"], and the
    encoding accepts every one of these strings. *)
Definition well_formed (encoding : Encoding) (messages : list message)
  : bool :=
  match fault encoding messages with
  | None => true
  | Some _ => false
  end.

End TokensSpec.

(** ** A small tokenizer

    One token per character: the character's code under the default
    encoding, the code plus 1000 under the encoding of ["gpt-4o"]; a text
    that holds ["<|endoftext|>"] is refused with [ValueError], as the
    encodings of [tiktoken] do.  On a text in which single letters and
    single digits alternate, such as ["a1"], [cl100k_base] cuts the text
    in the same places, one token per character.  It is the instance at
    which the closed examples below are evaluated. *)

Module Chars.

Definition code (c : Ascii.ascii) : Z := Z.of_N (Ascii.N_of_ascii c).
Definition char (z : Z) : Ascii.ascii := Ascii.ascii_of_N (Z.to_N z).

Definition tokens_of (shifted : bool) (s : string) : result (list Z) :=
  match String.index 0 "<|endoftext|>" s with
  | Some _ => Raise ValueError
  | None =>
      Ok (map (fun c => if shifted then code c + 1000 else code c)
              (list_ascii_of_string s))
  end.

Definition text_of (shifted : bool) (l : list Z) : string :=
  string_of_list_ascii
    (map (fun z => if shifted then char (z - 1000) else char z) l).

Definition known_model (model : string) : option bool :=
  if String.eqb model "gpt-4o" then Some true
  else if String.eqb model "gpt-4" then Some false
  else None.

#[global] Instance tokenizer : Tiktoken := {|
  Encoding := bool;
  encode := tokens_of;
  decode := text_of;
  encoding_for_model := known_model;
  cl100k_base := false
|}.

Definition user_hello : message :=
  [("role", VStr "user"); ("content", VStr "hello")].

Definition user_picture : message :=
  [("role", VStr "user");
   ("content",
    VList [VDict [("type", VStr "text"); ("text", VStr "what is this?")];
           VDict [("type", VStr "image_url");
                  ("image_url",
                   VDict [("url", VStr "data:image/png;base64,AAAA");
                          ("detail", VStr "low")])]])].

Definition assistant_ok : message :=
  [("role", VStr "assistant"); ("content", VStr "ok")].

Definition chat : list message := [user_hello; user_picture; assistant_ok].

End Chars.

(** A result with the two sides exchanged. *)
Definition swapped (r : result (Z * Z)) : result (Z * Z) :=
  match r with
  | Ok (w, h) => Ok (h, w)
  | Raise e => Raise e
  end.

(** * [api/files.py]: file helpers *)

(** ** Python string methods

    A string is a sequence of characters with a code below 256. *)

Module PyStr.

(** [s.startswith(prefix)] *)
Definition startswith (s prefix : string) : bool := String.prefix prefix s.

(** [c in s] for a character [c] *)
Fixpoint contains (c : Ascii.ascii) (s : string) : bool :=
  match s with
  | EmptyString => false
  | String c' rest => Ascii.eqb c' c || contains c rest
  end.

(** [s.split(sep)] for a separator of one character: the pieces between
    the occurrences of [sep], one more than there are occurrences. *)
Fixpoint split (sep : Ascii.ascii) (s : string) : list string :=
  match s with
  | EmptyString => [EmptyString]
  | String c rest =>
      if Ascii.eqb c sep then EmptyString :: split sep rest
      else
        match split sep rest with
        | piece :: pieces => String c piece :: pieces
        | [] => [String c EmptyString]
        end
  end.

Arguments contains c%_char s%_string.
Arguments split sep%_char s%_string.

(** [c.isspace()] for a code below 256: tab to carriage return, the four
    separators 28 to 31, space, next line (133), no-break space (160). *)
Definition isspace (c : Ascii.ascii) : bool :=
  let n := Ascii.N_of_ascii c in
  ((9 <=? n) && (n <=? 13) || (28 <=? n) && (n <=? 32)
   || (n =? 133) || (n =? 160))%N.

(** [s.lstrip()], [s.rstrip()], [s.strip()] *)
Fixpoint lstrip (s : string) : string :=
  match s with
  | EmptyString => EmptyString
  | String c rest => if isspace c then lstrip rest else s
  end.

Fixpoint rstrip (s : string) : string :=
  match s with
  | EmptyString => EmptyString
  | String c rest =>
      match rstrip rest with
      | EmptyString => if isspace c then EmptyString else String c EmptyString
      | kept => String c kept
      end
  end.

Definition strip (s : string) : string := rstrip (lstrip s).

(** Every character is white space. *)
Fixpoint blank (s : string) : bool :=
  match s with
  | EmptyString => true
  | String c rest => isspace c && blank rest
  end.

(** The string does not begin with white space, nor end with it. *)
Definition starts_with_space (s : string) : bool :=
  match s with
  | EmptyString => false
  | String c _ => isspace c
  end.

Fixpoint ends_with_space (s : string) : bool :=
  match s with
  | EmptyString => false
  | String c EmptyString => isspace c
  | String _ rest => ends_with_space rest
  end.

Definition trimmed (s : string) : bool :=
  negb (starts_with_space s) && negb (ends_with_space s).

End PyStr.

(** ** The file helpers *)

Module Files.

Import PyStr.

(** [IndexError], and what the libraries raise ([pybase64], the HTTP
    client). *)
Inductive exn (E : Type) : Type :=
| IndexError
| Foreign (e : E).

Arguments IndexError {E}.
Arguments Foreign {E} e.

Inductive outcome (E A : Type) : Type :=
| Return (a : A)
| Raised (e : exn E).

Arguments Return {E A} a.
Arguments Raised {E A} e.

(** What is done with the HTTP client, in order. *)
Inductive event : Type :=
| NewClient
| Post (url : string) (timeout : Z) (file_url : string)
| Get (url : string) (proxy : option string) (timeout : Z)
| Close.

(** The response [r]: [r.status_code], [r.content] and
    [r.headers.get('Content-Type')]. *)
Record response : Type := {
  status_code : Z;
  content : string;
  content_type : option string
}.

(** What the module is given: the two settings of [utils.configs], each
    [None] or a string ([if cf_file_url:] holds on a string that is not
    empty); [pybase64.b64decode]; and the answers of the network to
    [client.post(url, timeout, json={"file_url": file_url})] and
    [client.get(url, proxy, timeout)].  Each of the three calls returns
    or raises. *)
Class Environment (E : Type) : Type := {
  cf_file_url : option string;
  export_proxy_url : option string;
  b64decode : string -> E + string;
  post : string -> Z -> string -> E + response;
  get : string -> option string -> Z -> E + response
}.

(** A computation that logs what it does with the client and returns or
    raises. *)
Definition io (E A : Type) : Type :=
  list event -> list event * outcome E A.

Definition ret {E A : Type} (a : A) : io E A := fun log => (log, Return a).

Definition raise {E A : Type} (e : exn E) : io E A :=
  fun log => (log, Raised e).

Definition bind {E A B : Type} (c : io E A) (k : A -> io E B) : io E B :=
  fun log =>
    let (log', r) := c log in
    match r with
    | Return a => k a log'
    | Raised e => (log', Raised e)
    end.

Definition emit {E : Type} (ev : event) : io E unit :=
  fun log => ((log ++ [ev])%list, Return tt).

(** [try: body finally: cleanup] *)
Definition try_finally {E A : Type} (body : io E A) (cleanup : io E unit)
  : io E A :=
  fun log =>
    let (log', r) := body log in
    let (log'', r') := cleanup log' in
    match r' with
    | Return _ => (log'', r)
    | Raised e => (log'', Raised e)
    end.

(** A call into a library. *)
Definition call {E A : Type} (r : E + A) : io E A :=
  match r with
  | inl e => raise (Foreign e)
  | inr a => ret a
  end.

(** [l[i]] *)
Definition item {E A : Type} (l : list A) (i : nat) : io E A :=
  match nth_error l i with
  | Some a => ret a
  | None => raise IndexError
  end.

End Files.

Declare Scope io_scope.
Notation "x <- c ;; k" := (Files.bind c (fun x => k))
  (at level 61, c at next level, right associativity) : io_scope.
Delimit Scope io_scope with io.

Module FilesCode.

Import PyStr Files.

Section WithEnvironment.

Context {E : Type} {env : Environment E}.

Local Open Scope io_scope.

(** [Client()] and [client.close()] are logged and taken not to raise;
    the bytes of a content are a string. *)
Definition get_file_content (url : string)
  : io E (option string * option string) :=
  if startswith url "data:" then
    mime_type <- (head <- item (split ";" url) 0 ;;
                  item (split ":" head) 1) ;;
    base64_data <- item (split "," url) 1 ;;
    file_content <- call (b64decode base64_data) ;;
    ret (Some file_content, Some mime_type)
  else
    _ <- emit NewClient ;;
    try_finally
      (r <- (let direct :=
               _ <- emit (Get url export_proxy_url 60) ;;
               call (get url export_proxy_url 60) in
             match cf_file_url with
             | Some cf =>
                 if negb (String.eqb cf "")
                 then _ <- emit (Post cf 60 url) ;; call (post cf 60 url)
                 else direct
             | None => direct
             end) ;;
       if negb (status_code r =? 200) then ret (None, None)
       else
         let file_content := content r in
         head <- item (split ";" (match content_type r with
                                  | Some v => v
                                  | None => ""
                                  end)) 0 ;;
         let mime_type := strip head in
         ret (Some file_content, Some mime_type))
      (emit Close).

(** What [client.post] or [client.get] is asked, and what it answers. *)
Definition request (url : string) : event :=
  match cf_file_url with
  | Some cf =>
      if String.eqb cf "" then Get url export_proxy_url 60
      else Post cf 60 url
  | None => Get url export_proxy_url 60
  end.

Definition answer (url : string) : E + response :=
  match cf_file_url with
  | Some cf =>
      if String.eqb cf "" then get url export_proxy_url 60
      else post cf 60 url
  | None => get url export_proxy_url 60
  end.

(** The type in the header: up to the first [;], stripped. *)
Definition header_type (r : response) : string :=
  match split ";" (match content_type r with Some v => v | None => "" end) with
  | piece :: _ => strip piece
  | [] => ""
  end.

End WithEnvironment.

Definition multimodal_types : list string :=
  ["image/jpeg"; "image/webp"; "image/png"; "image/gif"].

Definition my_files_types : list string :=
  ["text/x-php";
   "application/msword";
   "text/x-c";
   "text/html";
   "application/vnd.openxmlformats-officedocument.wordprocessingml.document";
   "application/json";
   "text/javascript";
   "application/pdf";
   "text/x-java";
   "text/x-tex";
   "text/x-typescript";
   "text/x-sh";
   "text/x-csharp";
   "application/vnd.openxmlformats-officedocument.presentationml.presentation";
   "text/x-c++";
   "application/x-latext";
   "text/markdown";
   "text/plain";
   "text/x-ruby";
   "text/x-script.python"].

(** [x in l] on a list of strings *)
Definition mem (x : string) (l : list string) : bool :=
  existsb (String.eqb x) l.

Definition determine_file_use_case (mime_type : string) : string :=
  if mem mime_type multimodal_types then "multimodal"
  else if mem mime_type my_files_types then "my_files"
  else "ace_upload".

Definition extension_mapping : list (string * string) :=
  [
   ("image/jpeg", ".jpg");
   ("image/png", ".png");
   ("image/gif", ".gif");
   ("image/webp", ".webp");
   ("text/x-php", ".php");
   ("text/x-c", ".c");
   ("text/html", ".html");
   ("text/javascript", ".js");
   ("text/x-java", ".java");
   ("text/x-typescript", ".ts");
   ("text/x-sh", ".sh");
   ("text/x-csharp", ".cs");
   ("text/x-c++", ".cpp");
   ("text/markdown", ".md");
   ("text/plain", ".txt");
   ("text/x-ruby", ".rb");
   ("text/x-script.python", ".py");
   ("application/msword", ".doc");
   ("application/vnd.openxmlformats-officedocument.wordprocessingml.document", ".docx");
   ("application/json", ".json");
   ("application/pdf", ".pdf");
   ("text/x-tex", ".tex");
   ("application/vnd.openxmlformats-officedocument.presentationml.presentation", ".pptx");
   ("application/x-latex", ".latex");
   ("application/zip", ".zip");
   ("application/x-zip-compressed", ".zip");
   ("application/x-tar", ".tar");
   ("application/x-compressed-tar", ".tar.gz");
   ("application/vnd.rar", ".rar");
   ("application/x-rar-compressed", ".rar");
   ("application/x-7z-compressed", ".7z");
   ("application/octet-stream", ".bin");
   ("audio/mpeg", ".mp3");
   ("audio/wav", ".wav");
   ("audio/ogg", ".ogg");
   ("audio/aac", ".aac");
   ("video/mp4", ".mp4");
   ("video/x-msvideo", ".avi");
   ("video/x-matroska", ".mkv");
   ("video/webm", ".webm");
   ("application/rtf", ".rtf");
   ("application/vnd.ms-excel", ".xls");
   ("application/vnd.openxmlformats-officedocument.spreadsheetml.sheet", ".xlsx");
   ("text/css", ".css");
   ("text/xml", ".xml");
   ("application/xml", ".xml");
   ("application/vnd.android.package-archive", ".apk");
   ("application/vnd.apple.installer+xml", ".mpkg");
   ("application/x-bzip", ".bz");
   ("application/x-bzip2", ".bz2");
   ("application/x-csh", ".csh");
   ("application/x-debian-package", ".deb");
   ("application/x-dvi", ".dvi");
   ("application/java-archive", ".jar");
   ("application/x-java-jnlp-file", ".jnlp");
   ("application/vnd.mozilla.xul+xml", ".xul");
   ("application/vnd.ms-fontobject", ".eot");
   ("application/ogg", ".ogx");
   ("application/x-font-ttf", ".ttf");
   ("application/font-woff", ".woff");
   ("application/x-shockwave-flash", ".swf");
   ("application/vnd.visio", ".vsd");
   ("application/xhtml+xml", ".xhtml");
   ("application/vnd.ms-powerpoint", ".ppt");
   ("application/vnd.oasis.opendocument.text", ".odt");
   ("application/vnd.oasis.opendocument.spreadsheet", ".ods");
   ("application/x-xpinstall", ".xpi");
   ("application/vnd.google-earth.kml+xml", ".kml");
   ("application/vnd.google-earth.kmz", ".kmz");
   ("application/x-font-otf", ".otf");
   ("application/vnd.ms-excel.addin.macroEnabled.12", ".xlam");
   ("application/vnd.ms-excel.sheet.binary.macroEnabled.12", ".xlsb");
   ("application/vnd.ms-excel.template.macroEnabled.12", ".xltm");
   ("application/vnd.ms-powerpoint.addin.macroEnabled.12", ".ppam");
   ("application/vnd.ms-powerpoint.presentation.macroEnabled.12", ".pptm");
   ("application/vnd.ms-powerpoint.slideshow.macroEnabled.12", ".ppsm");
   ("application/vnd.ms-powerpoint.template.macroEnabled.12", ".potm");
   ("application/vnd.ms-word.document.macroEnabled.12", ".docm");
   ("application/vnd.ms-word.template.macroEnabled.12", ".dotm");
   ("application/x-ms-application", ".application");
   ("application/x-ms-wmd", ".wmd");
   ("application/x-ms-wmz", ".wmz");
   ("application/x-ms-xbap", ".xbap");
   ("application/vnd.ms-xpsdocument", ".xps");
   ("application/x-silverlight-app", ".xap")
  ].

(** [extension_mapping.get(mime_type, "")] *)
Definition get_file_extension (mime_type : string) : string :=
  match Py.get mime_type extension_mapping with
  | Some extension => extension
  | None => ""
  end.

End FilesCode.

(** ** A small environment

    No cloud function is set; the network knows one picture and answers
    404 for the rest; the decoder knows one text.  It is the instance at
    which the closed examples on files are evaluated. *)

Module Offline.

Import Files.

Definition picture : response :=
  {| status_code := 200;
     content := "PNG";
     content_type := Some " image/png ; charset=binary" |}.

Definition missing : response :=
  {| status_code := 404; content := "not found"; content_type := None |}.

#[global] Instance environment : Environment string := {|
  cf_file_url := None;
  export_proxy_url := Some "http://127.0.0.1:7890";
  b64decode s :=
    if String.eqb s "aGk=" then inr "hi" else inl "binascii.Error";
  post _ _ _ := inl "ConnectionError";
  get url _ _ :=
    if String.eqb url "https://example.org/a.png" then inr picture
    else if String.eqb url "https://example.org/down" then inl "Timeout"
    else inr missing
|}.

End Offline.

(** * Properties *)

(** ** The float operations on known values

    The values are those CPython computes: [1 / 3],
    [2048 / 2498], [2498 * (2048 / 2498) = 2047.9999999999998],
    [10 ** 400 / 10 ** 399 = 10.0], [1 / 10 ** 400 = 0.0],
    [int(-7 / 2) = -3], [math.ceil(-7 / 2) = -3], [math.ceil(1537 / 512) = 4],
    and the largest [int] that converts to a float. *)

Example int_truediv_1_3 :
  int_truediv 1 3 = Ok (S754_finite false 6004799503160661 (-54)).
Proof. reflexivity. Qed.

Example int_truediv_2048_2498 :
  int_truediv 2048 2498 = Ok (S754_finite false 7384605313734808 (-53)).
Proof. reflexivity. Qed.

Example int_mul_float_2498 :
  int_mul_float 2498 (S754_finite false 7384605313734808 (-53))
  = Ok (S754_finite false 9007199254740991 (-42)).
Proof. reflexivity. Qed.

Example scaled_2498 :
  scaled 2498 (S754_finite false 7384605313734808 (-53)) = Ok 2047.
Proof. reflexivity. Qed.

Example int_truediv_large :
  int_truediv (10 ^ 400) (10 ^ 399)
  = Ok (S754_finite false 5629499534213120 (-49)).
Proof. vm_compute. reflexivity. Qed.

Example int_truediv_underflow :
  int_truediv 1 (10 ^ 400) = Ok (S754_zero false).
Proof. vm_compute. reflexivity. Qed.

Example int_truediv_by_zero : int_truediv 1 0 = Raise ZeroDivisionError.
Proof. reflexivity. Qed.

Example int_of_float_truncates :
  (x <- int_truediv (-7) 2 ;; int_of_float x) = Ok (-3).
Proof. reflexivity. Qed.

Example ceil_negative : (x <- int_truediv (-7) 2 ;; ceil x) = Ok (-3).
Proof. reflexivity. Qed.

Example ceil_1537 : masks 1537 = Ok 4.
Proof. reflexivity. Qed.

Example float_of_int_largest :
  float_of_int (2 ^ 1024 - 2 ^ 970 - 1)
  = Ok (S754_finite false 9007199254740991 971)
  /\ float_of_int (2 ^ 1024 - 2 ^ 970) = Raise OverflowError.
Proof. split; vm_compute; reflexivity. Qed.

(** ** Counting the tokens of messages *)

Section TokensFacts.

Context {tk : Tiktoken}.

Lemma sum_cons (x : Z) (l : list Z) : sum (x :: l) = x + sum l.
Proof. reflexivity. Qed.

(** [num_tokens += len(encoding.encode(v))] *)
Lemma encode_text_count (encoding : Encoding) (v : option value) (n : Z) :
  (toks <- encode_text encoding v ;; Ok (n + len toks))
  = match text_fault encoding v with
    | None =>
        Ok (n + match v with
                | Some (VStr s) => text_tokens encoding s
                | _ => 0
                end)
    | Some e => Raise e
    end.
Proof.
  unfold encode_text, text_fault, text_tokens.
  destruct v as [[| | | |s| |]|]; try reflexivity.
  destruct (encode encoding s); reflexivity.
Qed.

(** The three loops either meet a fault, and raise it, or add up what the
    specification says. *)
Lemma count_items_spec (encoding : Encoding) (items : list value) :
  forall num_tokens,
    count_items encoding items num_tokens
    = match first_fault (part_fault encoding) items with
      | None => Ok (num_tokens + sum (map (part_tokens encoding) items))
      | Some e => Raise e
      end.
Proof.
  induction items as [|item rest IH]; intros n.
  - cbn. f_equal. lia.
  - cbn [count_items first_fault map]. rewrite sum_cons.
    destruct item as [| | | | |items|fields];
      cbn [item_get bind part_fault]; try reflexivity.
    cbn [part_tokens].
    destruct (eq_str (get "type" fields) "text").
    + rewrite encode_text_count.
      destruct (text_fault encoding (get "text" fields)); cbn [bind];
        [reflexivity|].
      destruct (eq_str (get "type" fields) "image_url"); cbn [bind];
        rewrite IH; destruct (first_fault (part_fault encoding) rest);
        try reflexivity; f_equal; lia.
    + cbn [bind].
      destruct (eq_str (get "type" fields) "image_url"); cbn [bind];
        rewrite IH; destruct (first_fault (part_fault encoding) rest);
        try reflexivity; f_equal; lia.
Qed.

Lemma count_fields_spec (encoding : Encoding) (m : message) :
  forall num_tokens,
    count_fields encoding m num_tokens
    = match message_fault encoding m with
      | None => Ok (num_tokens + fields_tokens encoding m)
      | Some e => Raise e
      end.
Proof.
  unfold message_fault, fields_tokens.
  induction m as [|[key v] rest IH]; intros n.
  - cbn. f_equal. lia.
  - cbn [count_fields first_fault map snd]. rewrite sum_cons.
    assert (Hvalue :
      match v with
      | VList items => count_items encoding items n
      | _ => toks <- encode_text encoding (Some v) ;; Ok (n + len toks)
      end
      = match field_fault encoding v with
        | None => Ok (n + field_tokens encoding v)
        | Some e => Raise e
        end).
    { destruct v as [| | | |s|items|fields];
        try (rewrite encode_text_count; reflexivity).
      apply count_items_spec. }
    rewrite Hvalue.
    destruct (field_fault encoding v); cbn [bind]; [reflexivity|].
    rewrite IH.
    destruct (first_fault (fun kv => field_fault encoding (snd kv)) rest);
      [reflexivity | f_equal; lia].
Qed.

Lemma count_messages_spec (encoding : Encoding) (overhead : Z)
  (messages : list message) :
  forall num_tokens,
    count_messages encoding overhead messages num_tokens
    = match fault encoding messages with
      | None =>
          Ok (num_tokens
              + sum (map (message_tokens encoding overhead) messages))
      | Some e => Raise e
      end.
Proof.
  unfold fault.
  induction messages as [|m rest IH]; intros n.
  - cbn. f_equal. lia.
  - cbn [count_messages first_fault map]. rewrite sum_cons.
    rewrite count_fields_spec.
    destruct (message_fault encoding m); cbn [bind]; [reflexivity|].
    rewrite IH.
    destruct (first_fault (message_fault encoding) rest);
      [reflexivity|].
    unfold message_tokens. f_equal. lia.
Qed.

Lemma count_messages_ok (encoding : Encoding) (overhead : Z)
  (messages : list message) :
  well_formed encoding messages = true ->
  forall num_tokens,
    count_messages encoding overhead messages num_tokens
    = Ok (num_tokens + sum (map (message_tokens encoding overhead) messages)).
Proof.
  unfold well_formed. intros Hok n. rewrite count_messages_spec.
  destruct (fault encoding messages); [discriminate | reflexivity].
Qed.

Lemma sum_message_tokens (encoding : Encoding) (overhead : Z)
  (messages : list message) :
  sum (map (message_tokens encoding overhead) messages)
  = sum (map (fields_tokens encoding) messages)
    + overhead * len messages + 3 * len messages.
Proof.
  unfold len, sum.
  induction messages as [|m rest IH]; [simpl; lia|].
  cbn [map fold_right List.length].
  rewrite IH. unfold message_tokens. lia.
Qed.

(** C1, amended. On a message list with nothing at fault -- every value
    of a field a string or a list of dicts, every part of type ["text"]
    with a string under ["text"], every such string accepted by the
    encoding -- [num_tokens_from_messages] returns the sum over the
    messages of: the per-message overhead of the model, the token counts
    of the message's values (for a list, the tokens of the text of every
    ["text"] part and 0 for every ["image_url"] part; for a string, its
    tokens), and 3 more -- the overhead and the 3 are paid by every
    message. *)
Theorem num_tokens_from_messages_sum (messages : list message) (model : string) :
  well_formed (resolve_encoding model) messages = true ->
  num_tokens_from_messages messages model
  = Ok (sum (map (fun m =>
                    tokens_per_message model
                    + sum (map (fun kv =>
                                  match snd kv with
                                  | VList items =>
                                      sum (map (part_tokens (resolve_encoding model)) items)
                                  | VStr s => text_tokens (resolve_encoding model) s
                                  | _ => 0
                                  end) m)
                    + 3)
                 messages)).
Proof.
  intros Hok. unfold num_tokens_from_messages.
  rewrite (count_messages_ok _ _ _ Hok), Z.add_0_l.
  reflexivity.
Qed.

(** C6. The per-message overhead is 4 for the model ["gpt-3.5-turbo-0301"]
    and 3 for any other model name, and this is what every message of a
    list of any length is charged, next to the tokens of its values and the
    3 that close it. *)
Theorem per_message_overhead (messages : list message) (model : string) :
  well_formed (resolve_encoding model) messages = true ->
  exists overhead,
    (model = "gpt-3.5-turbo-0301" -> overhead = 4)
    /\ (model <> "gpt-3.5-turbo-0301" -> overhead = 3)
    /\ tokens_per_message model = overhead
    /\ num_tokens_from_messages messages model
       = Ok (sum (map (fields_tokens (resolve_encoding model)) messages)
             + overhead * len messages + 3 * len messages).
Proof.
  intros Hok. exists (tokens_per_message model).
  unfold tokens_per_message at 1 2.
  destruct (String.eqb_spec model "gpt-3.5-turbo-0301") as [E|E].
  - repeat split; try easy.
    unfold num_tokens_from_messages.
    rewrite (count_messages_ok _ _ _ Hok), sum_message_tokens. f_equal.
  - repeat split; try easy.
    unfold num_tokens_from_messages.
    rewrite (count_messages_ok _ _ _ Hok), sum_message_tokens. f_equal.
Qed.

End TokensFacts.

Lemma num_tokens_from_messages_sum_witness :
  well_formed (resolve_encoding "gpt-4") Chars.chat = true
  /\ num_tokens_from_messages Chars.chat "gpt-4" = Ok 55.
Proof.
  split; [reflexivity|].
  rewrite (num_tokens_from_messages_sum Chars.chat "gpt-4"); reflexivity.
Defined.

(** There are message lists on which no sum is returned: a content that
    holds a special token, a part of type ["text"] without a text, a
    content that is [None], a part that is not a dict. *)
Lemma num_tokens_from_messages_no_sum :
  num_tokens_from_messages
    [[("role", VStr "user"); ("content", VStr "<|endoftext|>")]] "gpt-4"
  = Raise ValueError
  /\ num_tokens_from_messages
       [[("role", VStr "user");
         ("content", VList [VDict [("type", VStr "text")]])]] "gpt-4"
     = Raise TypeError
  /\ num_tokens_from_messages
       [[("role", VStr "assistant"); ("content", VNone)]] "gpt-4"
     = Raise TypeError
  /\ num_tokens_from_messages
       [[("role", VStr "user"); ("content", VList [VStr "hello"])]] "gpt-4"
     = Raise AttributeError.
Proof. repeat split. Qed.

Lemma per_message_overhead_witness :
  well_formed (resolve_encoding "gpt-3.5-turbo-0301") Chars.chat = true
  /\ exists overhead,
       ("gpt-3.5-turbo-0301" = "gpt-3.5-turbo-0301" -> overhead = 4)
       /\ ("gpt-3.5-turbo-0301" <> "gpt-3.5-turbo-0301" -> overhead = 3)
       /\ tokens_per_message "gpt-3.5-turbo-0301" = overhead
       /\ num_tokens_from_messages Chars.chat "gpt-3.5-turbo-0301"
          = Ok (sum (map (fields_tokens (resolve_encoding "gpt-3.5-turbo-0301"))
                         Chars.chat)
                + overhead * len Chars.chat + 3 * len Chars.chat).
Proof.
  split; [reflexivity|].
  apply (per_message_overhead Chars.chat "gpt-3.5-turbo-0301"). reflexivity.
Defined.

(** ** Counting and truncating a text *)

Section ContentFacts.

Context {tk : Tiktoken}.

Lemma firstn_len_le {A : Type} (l : list A) (n : Z) :
  len l <= n -> firstn (Z.to_nat n) l = l.
Proof. unfold len. intros H. apply firstn_all2. lia. Qed.

(** C3, amended. For [max_tokens >= 0] and a text that the encoding
    accepts: when the text has at least [max_tokens] tokens the result is
    the decoding of the first [max_tokens] of them, with [max_tokens] and
    ["length"]; otherwise it is the text unchanged, with its token count
    and ["stop"].  On a text that the encoding refuses the call raises
    what [encode] raises. *)
Theorem split_tokens_from_content_cases
  (content : string) (max_tokens : Z) (model : string) :
  0 <= max_tokens ->
  let encoding := resolve_encoding model in
  match encode encoding content with
  | Ok encoded =>
      (len encoded >= max_tokens ->
       split_tokens_from_content content max_tokens model
       = Ok (decode encoding (firstn (Z.to_nat max_tokens) encoded),
             max_tokens, "length"))
      /\ (len encoded < max_tokens ->
          split_tokens_from_content content max_tokens model
          = Ok (content, len encoded, "stop"))
  | Raise e => split_tokens_from_content content max_tokens model = Raise e
  end.
Proof.
  intros Hpos encoding. unfold split_tokens_from_content.
  fold encoding.
  destruct (encode encoding content) as [encoded|e]; cbn [bind];
    [|reflexivity].
  split; intros H.
  - replace (len encoded >=? max_tokens) with true
      by (symmetry; rewrite Z.geb_leb; apply Z.leb_le; lia).
    unfold slice_to.
    replace (0 <=? max_tokens) with true by (symmetry; apply Z.leb_le; lia).
    reflexivity.
  - replace (len encoded >=? max_tokens) with false
      by (symmetry; rewrite Z.geb_leb; apply Z.leb_gt; lia).
    reflexivity.
Qed.

(** C4, amended. On a text that the encoding accepts: with
    [max_tokens = 0] the result is [("", 0, "length")] (the decoding of no
    token being the empty text); with [max_tokens < 0] the branch taken is
    the same, and the result is the decoding of all the tokens but the
    last [- max_tokens], with [max_tokens] itself as the count and
    ["length"].  On a text that the encoding refuses the call raises what
    [encode] raises, whatever [max_tokens] is. *)
Theorem split_tokens_from_content_nonpositive
  (content : string) (max_tokens : Z) (model : string) :
  decode (resolve_encoding model) [] = "" ->
  max_tokens <= 0 ->
  let encoding := resolve_encoding model in
  match encode encoding content with
  | Ok encoded =>
      (max_tokens = 0 ->
       split_tokens_from_content content max_tokens model
       = Ok ("", 0, "length"))
      /\ (max_tokens < 0 ->
          split_tokens_from_content content max_tokens model
          = Ok (decode encoding
                  (firstn (List.length encoded - Z.to_nat (- max_tokens))
                          encoded),
                max_tokens, "length"))
  | Raise e => split_tokens_from_content content max_tokens model = Raise e
  end.
Proof.
  intros Hnil Hneg encoding. unfold split_tokens_from_content.
  fold encoding.
  destruct (encode encoding content) as [encoded|e]; cbn [bind];
    [|reflexivity].
  assert (Hlen : 0 <= len encoded) by (unfold len; lia).
  replace (len encoded >=? max_tokens) with true
    by (symmetry; rewrite Z.geb_leb; apply Z.leb_le; lia).
  unfold slice_to. split; intros H.
  - subst max_tokens. change (0 <=? 0) with true. cbv iota.
    change (Z.to_nat 0) with 0%nat. rewrite firstn_O.
    subst encoding. rewrite Hnil. reflexivity.
  - replace (0 <=? max_tokens) with false by (symmetry; apply Z.leb_gt; lia).
    replace (Z.to_nat (len encoded + max_tokens))
      with (List.length encoded - Z.to_nat (- max_tokens))%nat
      by (unfold len; lia).
    reflexivity.
Qed.

(** C5. The token count that [split_tokens_from_content] returns never
    exceeds [max_tokens]; the reason returned is ["length"] when the
    count equals [max_tokens] and ["stop"] when it does not.  The call
    returns unless [encode] raises on the text. *)
Theorem split_tokens_from_content_budget
  (content : string) (max_tokens : Z) (model : string) :
  match split_tokens_from_content content max_tokens model with
  | Ok (_, token_count, reason) =>
      token_count <= max_tokens
      /\ (token_count = max_tokens -> reason = "length")
      /\ (token_count <> max_tokens -> reason = "stop")
  | Raise e => encode (resolve_encoding model) content = Raise e
  end.
Proof.
  unfold split_tokens_from_content.
  destruct (encode (resolve_encoding model) content) as [encoded|e];
    cbn [bind]; [|reflexivity].
  set (n := len encoded).
  rewrite Z.geb_leb.
  destruct (Z.leb_spec max_tokens n) as [H|H].
  - repeat split; [lia | congruence].
  - repeat split; [lia | lia].
Qed.

(** C8. Resolving the encoding of a model name always yields an
    encoding: the model's own when [tiktoken] knows the name, and
    [cl100k_base] when it does not; on an unknown name each of the three
    token functions computes with [cl100k_base]. *)
Theorem unknown_model_uses_cl100k_base (model : string) :
  match encoding_for_model model with
  | Some encoding => resolve_encoding model = encoding
  | None =>
      resolve_encoding model = cl100k_base
      /\ (forall content,
            num_tokens_from_content content model
            = (encoded <- encode cl100k_base content ;; Ok (len encoded)))
      /\ (forall content max_tokens,
            split_tokens_from_content content max_tokens model
            = (encoded <- encode cl100k_base content ;;
               if len encoded >=? max_tokens
               then Ok (decode cl100k_base (slice_to encoded max_tokens),
                        max_tokens, "length")
               else Ok (content, len encoded, "stop")))
      /\ (forall messages,
            num_tokens_from_messages messages model
            = count_messages cl100k_base (tokens_per_message model) messages 0)
  end.
Proof.
  unfold num_tokens_from_content, split_tokens_from_content,
    num_tokens_from_messages, resolve_encoding.
  destruct (encoding_for_model model); repeat split; reflexivity.
Qed.

End ContentFacts.

Lemma split_tokens_from_content_cases_witness :
  0 <= 3
  /\ split_tokens_from_content "a1b2" 3 "gpt-4" = Ok ("a1b", 3, "length")
  /\ split_tokens_from_content "a1b2" 5 "gpt-4" = Ok ("a1b2", 4, "stop").
Proof.
  split; [lia|]. split.
  - exact (proj1 (split_tokens_from_content_cases "a1b2" 3 "gpt-4"
                    ltac:(lia))
             ltac:(vm_compute; discriminate)).
  - exact (proj2 (split_tokens_from_content_cases "a1b2" 5 "gpt-4"
                    ltac:(lia))
             ltac:(reflexivity)).
Defined.

(** At [max_tokens = -1] the text ["a1"], of the two tokens ["a"] and
    ["1"], comes back cut to its first token, with the count -1: not the
    decoding of the first -1 tokens (there are none, and no token decodes
    to the empty text).  And a text with a special token has no result
    at all. *)
Lemma split_tokens_from_content_negative :
  split_tokens_from_content "a1" (-1) "gpt-4" = Ok ("a", -1, "length")
  /\ (forall encoded,
        decode (resolve_encoding "gpt-4") (firstn (Z.to_nat (-1)) encoded)
        = "")
  /\ split_tokens_from_content "<|endoftext|>" 5 "gpt-4" = Raise ValueError.
Proof. repeat split. Qed.

(** At [max_tokens = -1] the count returned is -1, not 0; and at
    [max_tokens = 0] a text with a special token has no result. *)
Lemma split_tokens_from_content_degenerate_fails :
  -1 <= 0
  /\ split_tokens_from_content "ab" (-1) "gpt-4" <> Ok ("", 0, "length")
  /\ (exists text,
        split_tokens_from_content "ab" (-1) "gpt-4"
        = Ok (text, -1, "length"))
  /\ split_tokens_from_content "<|endoftext|>" 0 "gpt-4" = Raise ValueError.
Proof.
  split; [lia|]. split; [vm_compute; discriminate|].
  split; [eexists; reflexivity | reflexivity].
Qed.

Lemma split_tokens_from_content_nonpositive_witness :
  decode (resolve_encoding "gpt-4") [] = ""
  /\ -1 <= 0
  /\ split_tokens_from_content "a1b" (-1) "gpt-4" = Ok ("a1", -1, "length")
  /\ split_tokens_from_content "a1b" 0 "gpt-4" = Ok ("", 0, "length").
Proof.
  split; [reflexivity|]. split; [lia|]. split.
  - exact (proj2 (split_tokens_from_content_nonpositive "a1b" (-1) "gpt-4"
                    eq_refl ltac:(lia))
             ltac:(lia)).
  - exact (proj1 (split_tokens_from_content_nonpositive "a1b" 0 "gpt-4"
                    eq_refl ltac:(lia))
             ltac:(lia)).
Defined.

(** ** Binary64 arithmetic *)

Section Digits.

Lemma digits2_pos_bounds (p : positive) :
  2 ^ (Zpos (digits2_pos p) - 1) <= Zpos p < 2 ^ Zpos (digits2_pos p).
Proof.
  induction p as [p IH|p IH|]; cbn [digits2_pos].
  - rewrite Pos2Z.inj_succ. change (Zpos p~1) with (2 * Zpos p + 1).
    replace (Z.succ (Zpos (digits2_pos p)) - 1)
      with (Z.succ (Zpos (digits2_pos p) - 1)) by lia.
    rewrite !Z.pow_succ_r by lia.
    set (lo := 2 ^ (Zpos (digits2_pos p) - 1)) in *.
    set (hi := 2 ^ Zpos (digits2_pos p)) in *. lia.
  - rewrite Pos2Z.inj_succ. change (Zpos p~0) with (2 * Zpos p).
    replace (Z.succ (Zpos (digits2_pos p)) - 1)
      with (Z.succ (Zpos (digits2_pos p) - 1)) by lia.
    rewrite !Z.pow_succ_r by lia.
    set (lo := 2 ^ (Zpos (digits2_pos p) - 1)) in *.
    set (hi := 2 ^ Zpos (digits2_pos p)) in *. lia.
  - simpl. lia.
Qed.

Lemma Zdigits2_bounds (m : Z) :
  0 < m -> 2 ^ (Zdigits2 m - 1) <= m < 2 ^ Zdigits2 m.
Proof.
  destruct m as [|p|p]; try lia. intros _. apply digits2_pos_bounds.
Qed.

Lemma Zdigits2_nonneg (m : Z) : 0 <= Zdigits2 m.
Proof. destruct m; simpl; lia. Qed.

Lemma Zdigits2_pos (m : Z) : 0 < m -> 0 < Zdigits2 m.
Proof. destruct m; simpl; lia. Qed.

(** A number below [2 ^ k] has at most [k] digits. *)
Lemma Zdigits2_le (m k : Z) : 0 <= k -> 0 <= m < 2 ^ k -> Zdigits2 m <= k.
Proof.
  intros Hk [H0 Hm].
  destruct (Z.eq_dec m 0) as [->|Hne]; [simpl; lia|].
  destruct (Zdigits2_bounds m ltac:(lia)) as [Hlo _].
  destruct (Z.le_gt_cases (Zdigits2 m) k) as [|Hgt]; [assumption|].
  assert (2 ^ k <= 2 ^ (Zdigits2 m - 1)) by (apply Z.pow_le_mono_r; lia).
  lia.
Qed.

(** A number from [2 ^ k] on has more than [k] digits. *)
Lemma Zdigits2_gt (m k : Z) : 0 <= k -> 2 ^ k <= m -> k < Zdigits2 m.
Proof.
  intros Hk Hm.
  assert (0 < 2 ^ k) by (apply Z.pow_pos_nonneg; lia).
  destruct (Zdigits2_bounds m ltac:(lia)) as [_ Hhi].
  destruct (Z.lt_ge_cases k (Zdigits2 m)) as [|Hle]; [assumption|].
  assert (2 ^ Zdigits2 m <= 2 ^ k)
    by (apply Z.pow_le_mono_r; [lia | assumption]).
  lia.
Qed.

End Digits.

(** *** Rounding to 53 bits *)

Section Rounding.

Local Abbreviation fexp := (SpecFloat.fexp prec emax).

Lemma fexp_eq (e : Z) : fexp e = Z.max (e - 53) (-1074).
Proof. reflexivity. Qed.

Lemma fexp_mono (a b : Z) : a <= b -> fexp a <= fexp b.
Proof. rewrite !fexp_eq. lia. Qed.

Lemma shr_1_m (r : shr_record) :
  0 <= shr_m r -> shr_m (shr_1 r) = shr_m r / 2.
Proof.
  destruct r as [m r s]. cbn [shr_m]. intros Hm.
  rewrite <- Z.div2_div.
  destruct m as [|[p|p|]|p]; try reflexivity. lia.
Qed.

Lemma iter_pos_shr_1_m (p : positive) :
  forall r, 0 <= shr_m r ->
    shr_m (SpecFloat.iter_pos shr_1 p r) = shr_m r / 2 ^ Zpos p.
Proof.
  induction p as [p IH|p IH|]; intros r Hr; cbn [SpecFloat.iter_pos].
  - assert (H1 : 0 <= shr_m (shr_1 r))
      by (rewrite shr_1_m by assumption; apply Z.div_pos; lia).
    assert (H2 : 0 <= shr_m (SpecFloat.iter_pos shr_1 p (shr_1 r)))
      by (rewrite IH by assumption; apply Z.div_pos; lia).
    rewrite IH, IH, shr_1_m by assumption.
    assert (0 < 2 ^ Zpos p) by (apply Z.pow_pos_nonneg; lia).
    rewrite !Z.div_div by lia.
    replace (Zpos p~1) with (1 + (Zpos p + Zpos p)) by lia.
    rewrite !Z.pow_add_r by lia. reflexivity.
  - assert (H2 : 0 <= shr_m (SpecFloat.iter_pos shr_1 p r))
      by (rewrite IH by assumption; apply Z.div_pos; lia).
    rewrite IH, IH by assumption.
    assert (0 < 2 ^ Zpos p) by (apply Z.pow_pos_nonneg; lia).
    rewrite !Z.div_div by lia.
    replace (Zpos p~0) with (Zpos p + Zpos p) by lia.
    rewrite !Z.pow_add_r by lia. reflexivity.
  - rewrite shr_1_m by assumption. reflexivity.
Qed.

Lemma shr_record_of_loc_m (m : Z) (l : location) :
  shr_m (shr_record_of_loc m l) = m.
Proof. destruct l as [|[ | | ]]; reflexivity. Qed.

(** [shr_fexp] brings the exponent up to the one of the format and drops
    the bits below it. *)
Lemma shr_fexp_spec (mx ex : Z) (lx : location) :
  0 <= mx ->
  exists mrs,
    shr_fexp prec emax mx ex lx
    = (mrs, Z.max ex (fexp (Zdigits2 mx + ex)))
    /\ shr_m mrs = mx / 2 ^ (Z.max ex (fexp (Zdigits2 mx + ex)) - ex)
    /\ (fexp (Zdigits2 mx + ex) <= ex -> mrs = shr_record_of_loc mx lx).
Proof.
  intros Hmx. unfold shr_fexp, shr.
  set (f := fexp (Zdigits2 mx + ex)).
  destruct (f - ex) as [|p|p] eqn:E.
  - exists (shr_record_of_loc mx lx).
    replace (Z.max ex f) with ex by lia.
    rewrite Z.sub_diag, Z.div_1_r, shr_record_of_loc_m. auto.
  - exists (SpecFloat.iter_pos shr_1 p (shr_record_of_loc mx lx)).
    replace (Z.max ex f) with (ex + Zpos p) by lia.
    replace (ex + Zpos p - ex) with (Zpos p) by lia.
    rewrite iter_pos_shr_1_m by (rewrite shr_record_of_loc_m; assumption).
    rewrite shr_record_of_loc_m. repeat split. lia.
  - exists (shr_record_of_loc mx lx).
    replace (Z.max ex f) with ex by lia.
    rewrite Z.sub_diag, Z.div_1_r, shr_record_of_loc_m. auto.
Qed.

Lemma round_nearest_even_bounds (m : Z) (l : location) :
  m <= round_nearest_even m l <= m + 1.
Proof.
  destruct l as [|[ | | ]]; cbn [round_nearest_even];
    try destruct (Z.even m); lia.
Qed.

Lemma loc_of_shr_record_of_loc (m : Z) (l : location) :
  loc_of_shr_record (shr_record_of_loc m l) = l.
Proof. destruct l as [|[ | | ]]; reflexivity. Qed.

(** What [binary_round_aux] returns for a non-negative mantissa, in terms
    of integer division. *)
Lemma binary_round_aux_spec (mx ex : Z) (lx : location) :
  0 <= mx ->
  let e1 := Z.max ex (fexp (Zdigits2 mx + ex)) in
  let m1 := mx / 2 ^ (e1 - ex) in
  exists m2,
    m1 <= m2 <= m1 + 1
    /\ (lx = loc_Exact -> fexp (Zdigits2 mx + ex) <= ex -> m2 = mx)
    /\ binary_round_aux prec emax false mx ex lx
       = let e3 := Z.max e1 (fexp (Zdigits2 m2 + e1)) in
         match m2 / 2 ^ (e3 - e1) with
         | Z0 => S754_zero false
         | Zpos m =>
             if e3 <=? emax - prec then S754_finite false m e3
             else S754_infinity false
         | Zneg _ => S754_nan
         end.
Proof.
  intros Hmx e1 m1.
  destruct (shr_fexp_spec mx ex lx Hmx) as (mrs & E1 & Hm1 & Hsame).
  fold e1 in E1, Hm1. fold m1 in Hm1.
  set (m2 := round_nearest_even (shr_m mrs) (loc_of_shr_record mrs)).
  assert (Hm2 : m1 <= m2 <= m1 + 1)
    by (rewrite <- Hm1; apply round_nearest_even_bounds).
  assert (0 <= m1)
    by (subst m1; apply Z.div_pos; [lia | apply Z.pow_pos_nonneg; lia]).
  exists m2. split; [assumption|]. split.
  - intros -> Hle. subst m2. rewrite (Hsame Hle). reflexivity.
  - unfold binary_round_aux. rewrite E1. fold m2.
    destruct (shr_fexp_spec m2 e1 loc_Exact ltac:(lia)) as (mrs' & E2 & Hm3 & _).
    rewrite E2, Hm3. reflexivity.
Qed.

End Rounding.

(** *** The value of a float, as a rational *)

Section Values.

Local Open Scope Q_scope.

Lemma pow2_pos (e : Z) : 0 < pow2 e.
Proof. apply Qpower_0_lt. reflexivity. Qed.

Lemma pow2_add (a b : Z) : pow2 (a + b) == pow2 a * pow2 b.
Proof. apply Qpower_plus. discriminate. Qed.

Lemma pow2_Z (k : Z) : (0 <= k)%Z -> pow2 k == inject_Z (2 ^ k).
Proof. intros H. unfold pow2. rewrite Zpower_Qpower by assumption. reflexivity. Qed.

Lemma pow2_le (a b : Z) : (a <= b)%Z -> pow2 a <= pow2 b.
Proof.
  intros H. replace b with (a + (b - a))%Z by lia.
  rewrite pow2_add. rewrite <- (Qmult_1_r (pow2 a)) at 1.
  apply Qmult_le_l; [apply pow2_pos|].
  rewrite pow2_Z by lia.
  change 1 with (inject_Z 1). rewrite <- Zle_Qle.
  assert (0 < 2 ^ (b - a))%Z by (apply Z.pow_pos_nonneg; lia). lia.
Qed.

Lemma eps_pos : 0 < eps.
Proof. apply pow2_pos. Qed.

Lemma eta_pos : 0 < eta.
Proof. apply pow2_pos. Qed.

(** Dropping [k] low bits does not increase the value. *)
Lemma shift_value_le (m e k : Z) :
  (0 <= m)%Z -> (0 <= k)%Z ->
  inject_Z (m / 2 ^ k) * pow2 (e + k) <= inject_Z m * pow2 e.
Proof.
  intros Hm Hk. rewrite pow2_add, (pow2_Z k) by assumption.
  rewrite (Qmult_comm (pow2 e)), Qmult_assoc, <- inject_Z_mult.
  apply Qmult_le_compat_r; [|apply Qlt_le_weak, pow2_pos].
  rewrite <- Zle_Qle.
  assert (0 < 2 ^ k)%Z by (apply Z.pow_pos_nonneg; lia).
  rewrite Z.mul_comm. apply Z.mul_div_le. assumption.
Qed.

(** One unit of the exponent the format gives a mantissa is at most the
    value times [eps], or is [eta]. *)
Lemma ulp_bound (mx ex : Z) :
  (0 <= mx)%Z -> (mx = 0%Z -> (ex <= -1021)%Z) ->
  pow2 (fexp prec emax (Zdigits2 mx + ex))
  <= inject_Z mx * pow2 ex * eps + eta.
Proof.
  intros Hmx Hzero. rewrite fexp_eq.
  assert (Hval : 0 <= inject_Z mx * pow2 ex * eps).
  { apply Qmult_le_0_compat; [|apply Qlt_le_weak, eps_pos].
    apply Qmult_le_0_compat; [|apply Qlt_le_weak, pow2_pos].
    change 0 with (inject_Z 0). rewrite <- Zle_Qle. assumption. }
  destruct (Z.eq_dec mx 0) as [E|Hne].
  { specialize (Hzero E). subst mx. cbn [Zdigits2].
    replace (Z.max (0 + ex - 53) (-1074)) with (-1074)%Z by lia.
    unfold eta. lra. }
  destruct (Z.max_spec (Zdigits2 mx + ex - 53) (-1074)) as [[_ ->]|[Hge ->]].
  - unfold eta. lra.
  - assert (Hpos : (0 < mx)%Z) by lia.
    destruct (Zdigits2_bounds mx Hpos) as [Hlo _].
    pose proof (Zdigits2_pos mx Hpos) as Hd.
    replace (Zdigits2 mx + ex - 53)%Z
      with ((Zdigits2 mx - 1) + ex + -52)%Z by lia.
    rewrite !pow2_add, pow2_Z by lia. fold eps.
    assert (inject_Z (2 ^ (Zdigits2 mx - 1)) * pow2 ex * eps
            <= inject_Z mx * pow2 ex * eps).
    { apply Qmult_le_compat_r; [|apply Qlt_le_weak, eps_pos].
      apply Qmult_le_compat_r; [|apply Qlt_le_weak, pow2_pos].
      rewrite <- Zle_Qle. assumption. }
    pose proof eta_pos. lra.
Qed.

Lemma F2Q_nonneg (x : float) : nonneg x -> 0 <= F2Q x.
Proof.
  destruct x as [[|]|[|]| |[|] m e]; cbn [nonneg F2Q]; try easy.
  intros _. apply Qmult_le_0_compat; [|apply Qlt_le_weak, pow2_pos].
  change 0 with (inject_Z 0). rewrite <- Zle_Qle. simpl. lia.
Qed.

(** The rounded value is at most the value rounded, up to the relative
    error [eps] and the absolute error [eta]. *)
Lemma binary_round_aux_upper (mx ex : Z) (lx : location) :
  (0 <= mx)%Z -> (mx = 0%Z -> (ex <= -1021)%Z) ->
  lx = loc_Exact \/ (ex <= fexp prec emax (Zdigits2 mx + ex))%Z ->
  nonneg (binary_round_aux prec emax false mx ex lx)
  /\ F2Q (binary_round_aux prec emax false mx ex lx)
     <= inject_Z mx * pow2 ex * (1 + eps) + eta.
Proof.
  intros Hmx Hzero Hcase.
  destruct (binary_round_aux_spec mx ex lx Hmx) as (m2 & Hm2 & Hexact & ->).
  cbv zeta.
  set (e1 := Z.max ex (fexp prec emax (Zdigits2 mx + ex))) in *.
  set (e3 := Z.max e1 (fexp prec emax (Zdigits2 m2 + e1))).
  assert (Hm1 : (0 <= mx / 2 ^ (e1 - ex))%Z)
    by (apply Z.div_pos; [lia | apply Z.pow_pos_nonneg; lia]).
  assert (Hval : 0 <= inject_Z mx * pow2 ex).
  { apply Qmult_le_0_compat; [|apply Qlt_le_weak, pow2_pos].
    change 0 with (inject_Z 0). rewrite <- Zle_Qle. assumption. }
  pose proof eps_pos as Heps. pose proof eta_pos as Heta.
  assert (Hbound : 0 <= inject_Z mx * pow2 ex * (1 + eps) + eta).
  { assert (0 <= inject_Z mx * pow2 ex * eps)
      by (apply Qmult_le_0_compat; lra). lra. }
  (* the value before the second shift *)
  assert (Hm2val : inject_Z m2 * pow2 e1
                   <= inject_Z mx * pow2 ex * (1 + eps) + eta).
  { destruct (Z_le_gt_dec (fexp prec emax (Zdigits2 mx + ex)) ex) as [Hle|Hgt].
    - (* no bit dropped *)
      assert (He1 : e1 = ex) by (subst e1; lia).
      destruct Hcase as [Hlx|Hge].
      + rewrite (Hexact Hlx Hle), He1.
        assert (0 <= inject_Z mx * pow2 ex * eps)
          by (apply Qmult_le_0_compat; lra). lra.
      + assert (Hm2' : (m2 <= mx + 1)%Z).
        { rewrite He1, Z.sub_diag, Z.div_1_r in Hm2. lia. }
        rewrite Zle_Qle, inject_Z_plus in Hm2'.
        pose proof (ulp_bound mx ex Hmx Hzero) as Hulp.
        replace (fexp prec emax (Zdigits2 mx + ex)) with ex in Hulp by lia.
        rewrite He1. pose proof (pow2_pos ex).
        assert (inject_Z m2 * pow2 ex <= (inject_Z mx + inject_Z 1) * pow2 ex)
          by (apply Qmult_le_compat_r; lra).
        change (inject_Z 1) with 1 in *. lra.
    - (* bits dropped *)
      assert (He1 : e1 = fexp prec emax (Zdigits2 mx + ex)) by (subst e1; lia).
      pose proof (ulp_bound mx ex Hmx Hzero) as Hulp. rewrite <- He1 in Hulp.
      pose proof (shift_value_le mx ex (e1 - ex) Hmx ltac:(lia)) as Hshift.
      replace (ex + (e1 - ex))%Z with e1 in Hshift by lia.
      destruct Hm2 as [_ Hm2'].
      rewrite Zle_Qle, inject_Z_plus in Hm2'.
      pose proof (pow2_pos e1).
      assert (inject_Z m2 * pow2 e1
              <= (inject_Z (mx / 2 ^ (e1 - ex)) + inject_Z 1) * pow2 e1)
        by (apply Qmult_le_compat_r; lra).
      change (inject_Z 1) with 1 in *. lra. }
  assert (H0m2 : (0 <= m2)%Z) by lia.
  pose proof (shift_value_le m2 e1 (e3 - e1) H0m2 ltac:(lia)) as Hshift2.
  replace (e1 + (e3 - e1))%Z with e3 in Hshift2 by lia.
  assert (Hm3 : (0 <= m2 / 2 ^ (e3 - e1))%Z)
    by (apply Z.div_pos; [lia | apply Z.pow_pos_nonneg; lia]).
  destruct (m2 / 2 ^ (e3 - e1))%Z as [|m3|m3] eqn:E3.
  - split; [exact I | exact Hbound].
  - destruct (e3 <=? emax - prec)%Z.
    + split; [exact I|]. cbn [F2Q cond_Zopp]. lra.
    + split; [exact I | exact Hbound].
  - lia.
Qed.

End Values.

(** *** Exponents of rounded results *)

Section Exponents.

Lemma Zdigits2_mono (m n : Z) : 0 <= m <= n -> Zdigits2 m <= Zdigits2 n.
Proof.
  intros [Hm Hmn].
  destruct (Z.eq_dec n 0) as [->|Hn].
  { replace m with 0 by lia. lia. }
  destruct (Zdigits2_bounds n ltac:(lia)) as [_ Hhi].
  apply Zdigits2_le; [apply Zdigits2_nonneg | lia].
Qed.

Lemma Zdigits2_succ (m : Z) : 0 <= m -> Zdigits2 (m + 1) <= Zdigits2 m + 1.
Proof.
  intros Hm. pose proof (Zdigits2_nonneg m) as Hd.
  apply Zdigits2_le; [lia|].
  rewrite Z.pow_add_r, Z.pow_1_r by lia.
  destruct (Z.eq_dec m 0) as [->|Hne]; [simpl; lia|].
  destruct (Zdigits2_bounds m ltac:(lia)) as [_ Hhi]. lia.
Qed.

Lemma Zdigits2_div_pow2 (m k : Z) :
  0 <= m -> 0 <= k -> 0 < m / 2 ^ k ->
  Zdigits2 (m / 2 ^ k) = Zdigits2 m - k.
Proof.
  intros Hm Hk Hq.
  assert (Hpk : 0 < 2 ^ k) by (apply Z.pow_pos_nonneg; lia).
  assert (Hmpos : 0 < m).
  { destruct (Z.eq_dec m 0) as [->|]; [|lia]. rewrite Z.div_0_l in Hq; lia. }
  destruct (Zdigits2_bounds m Hmpos) as [Hlo Hhi].
  assert (Hkd : k < Zdigits2 m).
  { apply Zdigits2_gt; [assumption|].
    destruct (Z.lt_ge_cases m (2 ^ k)) as [Hlt|]; [|assumption].
    rewrite Z.div_small in Hq; lia. }
  apply Z.le_antisymm.
  - apply Zdigits2_le; [lia|]. split; [lia|].
    apply Z.div_lt_upper_bound; [assumption|].
    rewrite <- Z.pow_add_r by lia.
    replace (k + (Zdigits2 m - k)) with (Zdigits2 m) by lia. assumption.
  - assert (Zdigits2 m - k - 1 < Zdigits2 (m / 2 ^ k)); [|lia].
    apply Zdigits2_gt; [lia|].
    apply Z.div_le_lower_bound; [assumption|].
    rewrite <- Z.pow_add_r by lia.
    replace (k + (Zdigits2 m - k - 1)) with (Zdigits2 m - 1) by lia.
    assumption.
Qed.

Lemma Zdigits2_mul_pow2 (m k : Z) :
  0 < m -> 0 <= k -> Zdigits2 (m * 2 ^ k) = Zdigits2 m + k.
Proof.
  intros Hm Hk.
  assert (Hpk : 0 < 2 ^ k) by (apply Z.pow_pos_nonneg; lia).
  destruct (Zdigits2_bounds m Hm) as [Hlo Hhi].
  pose proof (Zdigits2_pos m Hm) as Hd.
  apply Z.le_antisymm.
  - apply Zdigits2_le; [lia|]. split; [lia|].
    rewrite Z.pow_add_r by lia. apply Z.mul_lt_mono_pos_r; assumption.
  - assert (Zdigits2 m + k - 1 < Zdigits2 (m * 2 ^ k)); [|lia].
    apply Zdigits2_gt; [lia|].
    replace (Zdigits2 m + k - 1) with ((Zdigits2 m - 1) + k) by lia.
    rewrite Z.pow_add_r by lia. apply Z.mul_le_mono_nonneg_r; lia.
Qed.

(** The magnitude of a rounded result is at most one above the magnitude
    [g] of what was rounded, and it is finite when [g] leaves room. *)
Lemma binary_round_aux_exponents (mx ex : Z) (lx : location) (g : Z) :
  0 <= mx -> Zdigits2 mx + ex <= g -> ex <= g -> -1074 <= g ->
  match binary_round_aux prec emax false mx ex lx with
  | S754_zero s => s = false
  | S754_finite s m e =>
      s = false /\ Zdigits2 (Zpos m) + e <= g + 1
      /\ e <= Z.max ex (Z.max (g - 52) (-1074))
  | S754_infinity s =>
      s = false /\ 971 < Z.max ex (Z.max (g - 52) (-1074))
  | S754_nan => False
  end.
Proof.
  intros Hmx Hg Hex Hmin.
  destruct (binary_round_aux_spec mx ex lx Hmx) as (m2 & Hm2 & _ & ->).
  cbv zeta.
  set (e1 := Z.max ex (fexp prec emax (Zdigits2 mx + ex))) in *.
  set (e3 := Z.max e1 (fexp prec emax (Zdigits2 m2 + e1))).
  set (m1 := mx / 2 ^ (e1 - ex)) in *.
  assert (Hp1 : 0 < 2 ^ (e1 - ex)) by (apply Z.pow_pos_nonneg; lia).
  assert (Hm1 : 0 <= m1) by (apply Z.div_pos; lia).
  assert (He1 : e1 <= Z.max ex (Z.max (g - 52) (-1074)))
    by (subst e1; rewrite fexp_eq; lia).
  assert (Hd1 : Zdigits2 m1 + e1 <= g).
  { destruct (Z.eq_dec m1 0) as [E|Hne].
    - rewrite E. cbn [Zdigits2]. subst e1. rewrite fexp_eq. lia.
    - subst m1. rewrite Zdigits2_div_pow2 by lia. lia. }
  assert (Hd2 : Zdigits2 m2 + e1 <= g + 1).
  { pose proof (Zdigits2_mono m2 (m1 + 1) ltac:(lia)).
    pose proof (Zdigits2_succ m1 Hm1). lia. }
  assert (He3 : e3 <= Z.max ex (Z.max (g - 52) (-1074)))
    by (subst e3; rewrite fexp_eq; lia).
  assert (Hp3 : 0 < 2 ^ (e3 - e1)) by (apply Z.pow_pos_nonneg; lia).
  destruct (m2 / 2 ^ (e3 - e1)) as [|m3|m3] eqn:E3.
  - reflexivity.
  - assert (Hd3 : Zdigits2 (Zpos m3) + e3 <= g + 1).
    { rewrite <- E3, Zdigits2_div_pow2 by lia. lia. }
    destruct (Z.leb_spec e3 (emax - prec)) as [Hfin|Hinf].
    + auto.
    + change (emax - prec) with 971 in Hinf. split; [reflexivity | lia].
  - assert (0 <= m2 / 2 ^ (e3 - e1)) by (apply Z.div_pos; lia). lia.
Qed.

End Exponents.

(** *** Conversion of an [int] *)

Section Conversion.

Local Open Scope Z_scope.

Lemma iter_xO (d m : positive) : Zpos (Pos.iter xO m d) = Zpos m * 2 ^ Zpos d.
Proof.
  induction d as [|d IH] using Pos.peano_ind.
  - cbn [Pos.iter]. change (2 ^ 1) with 2. lia.
  - rewrite Pos.iter_succ, Pos2Z.inj_succ, Z.pow_succ_r by lia.
    change (Zpos (Pos.iter xO m d)~0) with (2 * Zpos (Pos.iter xO m d)).
    rewrite IH. ring.
Qed.

Lemma shl_align_spec (mx : positive) (ex ex' : Z) :
  exists mz,
    shl_align mx ex ex' = (mz, Z.min ex ex')
    /\ Zpos mz = Zpos mx * 2 ^ (ex - Z.min ex ex').
Proof.
  unfold shl_align. destruct (ex' - ex) as [|d|d] eqn:E.
  - exists mx. replace (Z.min ex ex') with ex by lia.
    rewrite Z.sub_diag. split; [reflexivity | simpl; lia].
  - exists mx. replace (Z.min ex ex') with ex by lia.
    rewrite Z.sub_diag. split; [reflexivity | simpl; lia].
  - exists (Pos.iter xO mx d). replace (Z.min ex ex') with ex' by lia.
    replace (ex - ex') with (Zpos d) by lia.
    split; [reflexivity | apply iter_xO].
Qed.

(** [float(w)] for [w >= 0]: not negative, at most [w] up to the relative
    error; it raises only from [2 ^ 1023] on, and always from [2 ^ 1024]
    on. *)
Lemma float_of_int_spec (w : Z) :
  0 <= w ->
  match float_of_int w with
  | Ok f =>
      nonneg_finite f
      /\ (F2Q f <= inject_Z w * (1 + eps) + eta)%Q
      /\ w < 2 ^ 1024
      /\ match f with
         | S754_finite _ m e =>
             Zdigits2 (Zpos m) + e <= Zdigits2 w + 1
             /\ e <= Z.max 0 (Zdigits2 w - 52)
         | _ => True
         end
  | Raise _ => 2 ^ 1023 <= w
  end.
Proof.
  intros Hw. unfold float_of_int, binary_normalize.
  destruct w as [|p|p]; [| |lia].
  { cbv beta iota. split; [exact I|]. split.
    - cbn [F2Q]. change (inject_Z 0) with 0%Q. pose proof eta_pos. lra.
    - split; [reflexivity | exact I]. }
  unfold binary_round.
  set (d := Zpos (digits2_pos p)).
  assert (Hd : d = Zdigits2 (Zpos p)) by reflexivity.
  destruct (shl_align_spec p 0 (fexp prec emax (d + 0))) as (mz & -> & Hmz).
  set (ez := Z.min 0 (fexp prec emax (d + 0))) in *.
  assert (Hez : ez <= 0) by (subst ez; lia).
  assert (Hdz : Zdigits2 (Zpos mz) + ez = d).
  { rewrite Hmz, Zdigits2_mul_pow2 by lia. lia. }
  assert (Hd1 : 1 <= d) by (subst d; lia).
  pose proof (binary_round_aux_upper (Zpos mz) ez loc_Exact
                ltac:(lia) ltac:(lia) (or_introl eq_refl)) as [Hnn Hup].
  pose proof (binary_round_aux_exponents (Zpos mz) ez loc_Exact d
                ltac:(lia) ltac:(lia) ltac:(lia) ltac:(lia)) as Hexp.
  assert (Hval : (inject_Z (Zpos mz) * pow2 ez == inject_Z (Zpos p))%Q).
  { rewrite Hmz, inject_Z_mult, <- pow2_Z by lia.
    rewrite <- Qmult_assoc, <- pow2_add.
    replace (0 - ez + ez) with 0 by lia. change (pow2 0) with 1%Q. ring. }
  rewrite Hval in Hup.
  assert (Hbig : 1025 <= d ->
    binary_round_aux prec emax false (Zpos mz) ez loc_Exact
    = S754_infinity false).
  { intros Hbig.
    assert (Hez0 : ez = 0) by (subst ez; rewrite fexp_eq; lia).
    assert (Hmzp : Zpos mz = Zpos p).
    { rewrite Hmz, Hez0. simpl. lia. }
    destruct (binary_round_aux_spec (Zpos mz) ez loc_Exact ltac:(lia))
      as (m2 & Hm2 & _ & ->).
    cbv zeta. rewrite Hmzp, Hez0 in *.
    change (Zdigits2 (Zpos p)) with d in *.
    replace (Z.max 0 (fexp prec emax (d + 0))) with (d - 53) in *
      by (rewrite fexp_eq; lia).
    replace (d - 53 - 0) with (d - 53) in * by lia.
    destruct (Zdigits2_bounds (Zpos p) ltac:(lia)) as [Hlo Hhi].
    change (Zdigits2 (Zpos p)) with d in Hlo, Hhi.
    assert (Hp : 0 < 2 ^ (d - 53)) by (apply Z.pow_pos_nonneg; lia).
    assert (Hm1lo : 2 ^ 52 <= Zpos p / 2 ^ (d - 53)).
    { apply Z.div_le_lower_bound; [assumption|].
      rewrite <- Z.pow_add_r by lia.
      replace (d - 53 + 52) with (d - 1) by lia. assumption. }
    assert (Hm1hi : Zpos p / 2 ^ (d - 53) < 2 ^ 53).
    { apply Z.div_lt_upper_bound; [assumption|].
      rewrite <- Z.pow_add_r by lia.
      replace (d - 53 + 53) with d by lia. assumption. }
    assert (Hd2 : Zdigits2 m2 <= 54).
    { apply Zdigits2_le; [lia|]. change (2 ^ 54) with (2 * 2 ^ 53). lia. }
    set (e3 := Z.max (d - 53) (fexp prec emax (Zdigits2 m2 + (d - 53)))).
    assert (He3 : d - 53 <= e3 <= d - 52) by (subst e3; rewrite fexp_eq; lia).
    assert (Hm3 : 0 < m2 / 2 ^ (e3 - (d - 53))).
    { apply Z.div_str_pos. split; [apply Z.pow_pos_nonneg; lia|].
      apply Z.le_trans with (2 ^ 1); [apply Z.pow_le_mono_r; lia|].
      change (2 ^ 1) with 2. change (2 ^ 52) with 4503599627370496 in Hm1lo.
      lia. }
    destruct (m2 / 2 ^ (e3 - (d - 53))) as [|m3|m3]; try lia.
    replace (e3 <=? emax - prec) with false; [reflexivity|].
    symmetry. apply Z.leb_gt. change (emax - prec) with 971. lia. }
  assert (Hlt : d <= 1024 -> Zpos p < 2 ^ 1024).
  { intros Hle. destruct (Zdigits2_bounds (Zpos p) ltac:(lia)) as [_ Hhi].
    change (Zdigits2 (Zpos p)) with d in Hhi.
    apply Z.lt_le_trans with (2 ^ d); [assumption|].
    apply Z.pow_le_mono_r; lia. }
  destruct (binary_round_aux prec emax false (Zpos mz) ez loc_Exact)
    as [s|s| |s m e] eqn:E.
  - cbv beta iota in Hexp. subst s.
    repeat split; try exact I; try assumption.
    destruct (Z_le_gt_dec d 1024); [auto|].
    discriminate (Hbig ltac:(lia)).
  - destruct Hexp as [_ Hexp].
    destruct (Z.lt_ge_cases (Zpos p) (2 ^ 1023)) as [Hsmall|]; [|assumption].
    exfalso. assert (d <= 1023); [|lia].
    apply (Zdigits2_le (Zpos p) 1023); lia.
  - contradiction.
  - destruct Hexp as (-> & Hmag & He).
    split; [exact I|]. split; [assumption|]. split.
    + destruct (Z_le_gt_dec d 1024); [auto|].
      discriminate (Hbig ltac:(lia)).
    + change (Zdigits2 (Zpos p)) with d. lia.
Qed.

Lemma float_of_int_raise (n : Z) (e : exn) :
  float_of_int n = Raise e -> e = OverflowError.
Proof.
  unfold float_of_int.
  destruct (binary_normalize prec emax n 0 false); congruence.
Qed.

End Conversion.

(** *** Division of two [int]s *)

Section Division.

Local Open Scope Z_scope.

(** The quotient and exponent handed to the rounding: the quotient is
    below the exact one, and has enough bits for the rounding to be at
    the format's exponent. *)
Lemma SFdiv_core_binary_spec (m1 m2 : Z) :
  0 < m1 -> 0 < m2 ->
  exists q e' l,
    SFdiv_core_binary prec emax m1 0 m2 0 = (q, e', l)
    /\ 0 <= q /\ e' <= 0
    /\ q * m2 <= m1 * 2 ^ (- e')
    /\ e' <= fexp prec emax (Zdigits2 q + e')
    /\ (q = 0 -> e' <= -1021)
    /\ Zdigits2 q + e' <= Z.max (Zdigits2 m1 - Zdigits2 m2 + 1) e'
    /\ e' <= fexp prec emax (Zdigits2 m1 - Zdigits2 m2).
Proof.
  intros H1 H2. unfold SFdiv_core_binary.
  replace (Zdigits2 m1 + 0 - (Zdigits2 m2 + 0))
    with (Zdigits2 m1 - Zdigits2 m2) by lia.
  change (0 - 0) with 0.
  set (D := Zdigits2 m1 - Zdigits2 m2).
  set (e' := Z.min (fexp prec emax D) 0).
  set (s := 0 - e').
  assert (Hs : 0 <= s) by (subst s e'; lia).
  assert (Hps : 0 < 2 ^ s) by (apply Z.pow_pos_nonneg; lia).
  set (m' := match s with
             | 0 => m1
             | Zpos _ => Z.shiftl m1 s
             | Zneg _ => 0
             end).
  assert (Hm' : m' = m1 * 2 ^ s).
  { subst m'. destruct s as [|p|p] eqn:Es.
    - simpl. lia.
    - apply Z.shiftl_mul_pow2. lia.
    - lia. }
  destruct (Z.div_eucl m' m2) as [q r] eqn:Ediv.
  assert (Hq : q = m' / m2) by (unfold Z.div; rewrite Ediv; reflexivity).
  exists q, e', (new_location m2 r).
  destruct (Zdigits2_bounds m1 H1) as [Hlo1 Hhi1].
  destruct (Zdigits2_bounds m2 H2) as [Hlo2 Hhi2].
  pose proof (Zdigits2_pos m1 H1) as Hd1.
  pose proof (Zdigits2_pos m2 H2) as Hd2.
  assert (Hq0 : 0 <= q) by (rewrite Hq; apply Z.div_pos; lia).
  assert (Hqm : q * m2 <= m1 * 2 ^ s).
  { rewrite Hq, <- Hm', Z.mul_comm. apply Z.mul_div_le. assumption. }
  (* enough bits *)
  assert (Hlow : 1 <= D + s -> D + s <= Zdigits2 q).
  { intros Hpos.
    assert (D + s - 1 < Zdigits2 q); [|lia].
    apply Zdigits2_gt; [lia|].
    rewrite Hq. apply Z.div_le_lower_bound; [assumption|].
    rewrite Hm'.
    apply Z.le_trans with (2 ^ Zdigits2 m2 * 2 ^ (D + s - 1)).
    - apply Z.mul_le_mono_nonneg_r; [apply Z.pow_nonneg|]; lia.
    - rewrite <- Z.pow_add_r by lia.
      replace (Zdigits2 m2 + (D + s - 1)) with ((Zdigits2 m1 - 1) + s)
        by (subst D; lia).
      rewrite Z.pow_add_r by lia.
      apply Z.mul_le_mono_nonneg_r; lia. }
  assert (Hmag : D <= Zdigits2 q + e').
  { pose proof (Zdigits2_nonneg q).
    destruct (Z_le_gt_dec 1 (D + s)) as [Hpos|Hneg].
    - specialize (Hlow Hpos). subst s. lia.
    - subst s. lia. }
  (* not too many bits *)
  assert (Hupp : Zdigits2 q + e' <= Z.max (D + 1) e').
  { destruct (Z_le_gt_dec 0 (D + s + 1)) as [Hpos|Hneg].
    - assert (Zdigits2 q <= D + s + 1); [|subst s; lia].
      apply Zdigits2_le; [assumption|]. split; [assumption|].
      rewrite Hq. apply Z.div_lt_upper_bound; [assumption|].
      rewrite Hm'.
      apply Z.lt_le_trans with (2 ^ Zdigits2 m1 * 2 ^ s).
      + apply Z.mul_lt_mono_pos_r; assumption.
      + apply Z.le_trans with (2 ^ (Zdigits2 m2 - 1) * 2 ^ (D + s + 1)).
        * rewrite <- !Z.pow_add_r by lia.
          apply Z.pow_le_mono_r; subst D; lia.
        * apply Z.mul_le_mono_nonneg_r; [apply Z.pow_nonneg|]; lia.
    - assert (Hz0 : q = 0); [|rewrite Hz0; cbn [Zdigits2]; lia].
      rewrite Hq. apply Z.div_small. split; [lia|].
      rewrite Hm'.
      apply Z.lt_le_trans with (2 ^ Zdigits2 m1 * 2 ^ s).
      + apply Z.mul_lt_mono_pos_r; assumption.
      + apply Z.le_trans with (2 ^ (Zdigits2 m2 - 1)); [|assumption].
        rewrite <- Z.pow_add_r by lia.
        apply Z.pow_le_mono_r; subst D; lia. }
  repeat split.
  - assumption.
  - subst e'. lia.
  - replace (- e') with s by (subst s; lia). assumption.
  - apply Z.le_trans with (fexp prec emax D).
    + subst e'. lia.
    + apply fexp_mono. assumption.
  - intros Hz.
    assert (D + s <= 0).
    { destruct (Z_le_gt_dec 1 (D + s)) as [Hpos|]; [|lia].
      specialize (Hlow Hpos). rewrite Hz in Hlow. cbn [Zdigits2] in Hlow. lia. }
    subst s e'. rewrite fexp_eq in *. lia.
  - assumption.
  - subst e'. lia.
Qed.

(** [a / b] for positive [a] and [b]: at most the exact quotient, up to
    the relative error, with magnitude and exponent bounded by the
    difference of the numbers of bits of [a] and [b]; it raises only when
    that difference exceeds 1022. *)
Lemma int_truediv_spec (a b : Z) :
  0 < a -> 0 < b ->
  match int_truediv a b with
  | Ok s =>
      nonneg_finite s
      /\ (F2Q s <= inject_Z a / inject_Z b * (1 + eps) + eta)%Q
      /\ mag s <= Z.max (Zdigits2 a - Zdigits2 b + 2) (-1073)
      /\ expo s <= Z.max (Zdigits2 a - Zdigits2 b - 51) (-1074)
  | Raise _ => 1022 < Zdigits2 a - Zdigits2 b
  end.
Proof.
  intros Ha Hb. unfold int_truediv.
  destruct a as [|pa|pa]; try lia. destruct b as [|pb|pb]; try lia.
  cbn [Z.eqb Z.ltb Z.compare Z.abs Z.to_pos]. unfold SFdiv.
  destruct (SFdiv_core_binary_spec (Zpos pa) (Zpos pb) Ha Hb)
    as (q & e' & l & -> & Hq0 & He' & Hqm & Hshift & Hzero & Hmag & HeD).
  cbn [xorb].
  set (D := Zdigits2 (Zpos pa) - Zdigits2 (Zpos pb)) in *.
  pose proof (binary_round_aux_upper q e' l Hq0 Hzero (or_intror Hshift))
    as [Hnn Hup].
  assert (Hquot : (inject_Z q * pow2 e'
                   <= inject_Z (Zpos pa) / inject_Z (Zpos pb))%Q).
  { apply Qle_shift_div_l.
    - change 0%Q with (inject_Z 0). rewrite <- Zlt_Qlt. lia.
    - rewrite Zle_Qle, !inject_Z_mult, <- pow2_Z in Hqm by lia.
      pose proof (pow2_pos e') as Hp.
      assert (Hone : (pow2 (- e') * pow2 e' == 1)%Q).
      { rewrite <- pow2_add. replace (- e' + e') with 0 by lia. reflexivity. }
      assert (Hmul : (inject_Z q * inject_Z (Zpos pb) * pow2 e'
                      <= inject_Z (Zpos pa) * pow2 (- e') * pow2 e')%Q)
        by (apply Qmult_le_compat_r; [assumption | lra]).
      rewrite <- (Qmult_assoc (inject_Z (Zpos pa))), Hone in Hmul.
      lra. }
  assert (Hup' : (F2Q (binary_round_aux prec emax false q e' l)
                  <= inject_Z (Zpos pa) / inject_Z (Zpos pb) * (1 + eps) + eta)%Q).
  { pose proof eps_pos.
    assert ((inject_Z q * pow2 e' * (1 + eps)
             <= inject_Z (Zpos pa) / inject_Z (Zpos pb) * (1 + eps))%Q)
      by (apply Qmult_le_compat_r; lra).
    lra. }
  rewrite fexp_eq in HeD.
  pose proof (binary_round_aux_exponents q e' l (Z.max (D + 1) (-1074))
                Hq0 ltac:(lia) ltac:(lia) ltac:(lia)) as Hexp.
  destruct (binary_round_aux prec emax false q e' l) as [s|s| |s m e] eqn:E.
  - subst s. cbn [mag expo]. repeat split; try exact I; try assumption; lia.
  - lia.
  - contradiction.
  - destruct Hexp as (-> & H1 & H2). cbn [mag expo].
    split; [exact I|]. split; [assumption|]. lia.
Qed.

End Division.

(** *** Multiplication and truncation *)

Section Multiplication.

Local Open Scope Z_scope.

Lemma nonneg_finite_nonneg (x : float) : nonneg_finite x -> nonneg x.
Proof. destruct x as [[|]|[|]| |[|] m e]; cbn; auto. Qed.

Lemma Zdigits2_mul (m n : Z) :
  0 < m -> 0 < n -> Zdigits2 (m * n) <= Zdigits2 m + Zdigits2 n.
Proof.
  intros Hm Hn.
  destruct (Zdigits2_bounds m Hm) as [_ Hm'].
  destruct (Zdigits2_bounds n Hn) as [_ Hn'].
  pose proof (Zdigits2_pos m Hm). pose proof (Zdigits2_pos n Hn).
  apply Zdigits2_le; [lia|]. split; [lia|].
  rewrite Z.pow_add_r by lia.
  apply Z.mul_lt_mono_nonneg; lia.
Qed.

(** The product of two floats that are not negative: at most the exact
    product, up to the relative error; finite when the magnitudes leave
    room. *)
Lemma SFmul_spec (x y : float) :
  nonneg_finite x -> nonneg_finite y ->
  nonneg (SFmul prec emax x y)
  /\ (F2Q (SFmul prec emax x y) <= F2Q x * F2Q y * (1 + eps) + eta)%Q
  /\ (mag x + mag y <= 1023 -> expo x + expo y <= 971 ->
      nonneg_finite (SFmul prec emax x y)).
Proof.
  intros Hx Hy.
  assert (Hsmall : (0 <= 0 * (1 + eps) + eta)%Q)
    by (pose proof eta_pos; lra).
  destruct x as [[|]|[|]| |[|] mx ex]; try contradiction;
    destruct y as [[|]|[|]| |[|] my ey]; try contradiction;
    cbn [SFmul xorb].
  - repeat split. cbn [F2Q]. lra.
  - repeat split. cbn [F2Q]. lra.
  - repeat split. cbn [F2Q]. lra.
  - pose proof (binary_round_aux_upper (Zpos (mx * my)) (ex + ey) loc_Exact
                  ltac:(lia) ltac:(lia) (or_introl eq_refl)) as [Hnn Hup].
    split; [assumption|]. split.
    + cbn [F2Q cond_Zopp].
      rewrite Pos2Z.inj_mul, inject_Z_mult, pow2_add in Hup.
      assert (E : (inject_Z (Zpos mx) * pow2 ex * (inject_Z (Zpos my) * pow2 ey)
                   == inject_Z (Zpos mx) * inject_Z (Zpos my)
                      * (pow2 ex * pow2 ey))%Q) by ring.
      rewrite E. assumption.
    + cbn [mag expo]. intros Hmag Hexpo.
      pose proof (Zdigits2_mul (Zpos mx) (Zpos my) ltac:(lia) ltac:(lia)) as Hd.
      pose proof (Zdigits2_pos (Zpos mx) ltac:(lia)).
      pose proof (Zdigits2_pos (Zpos my) ltac:(lia)).
      pose proof (binary_round_aux_exponents (Zpos (mx * my)) (ex + ey)
                    loc_Exact 1023 ltac:(lia)
                    ltac:(rewrite Pos2Z.inj_mul; lia) ltac:(lia) ltac:(lia))
        as Hexp.
      destruct (binary_round_aux prec emax false (Zpos (mx * my)) (ex + ey)
                  loc_Exact) as [s|s| |s m e].
      * subst s. exact I.
      * lia.
      * contradiction.
      * destruct Hexp as [-> _]. exact I.
Qed.

(** [int(x)] of a float that is not negative: an integer that is not
    negative, at most [x]. *)
Lemma int_of_float_spec (x : float) :
  nonneg_finite x ->
  exists n, int_of_float x = Ok n /\ 0 <= n /\ (inject_Z n <= F2Q x)%Q.
Proof.
  intros Hx. destruct x as [[|]|[|]| |[|] m e]; try contradiction.
  - exists 0. split; [reflexivity|]. split; [lia | cbn [F2Q]; apply Qle_refl].
  - exists (Z.shiftl (Zpos m) e). cbn [int_of_float cond_Zopp F2Q].
    split; [reflexivity|].
    destruct (Z_le_gt_dec 0 e) as [He|He].
    + rewrite Z.shiftl_mul_pow2 by assumption.
      assert (0 < 2 ^ e) by (apply Z.pow_pos_nonneg; lia).
      split; [lia|].
      rewrite inject_Z_mult, <- pow2_Z by assumption. lra.
    + rewrite Z.shiftl_div_pow2 by lia.
      assert (0 < 2 ^ (- e)) by (apply Z.pow_pos_nonneg; lia).
      split; [apply Z.div_pos; lia|].
      pose proof (shift_value_le (Zpos m) e (- e) ltac:(lia) ltac:(lia)) as H'.
      replace (e + - e) with 0 in H' by lia.
      change (pow2 0) with 1%Q in H'. lra.
Qed.

(** [int(n * s)] for [n >= 0] and [s] not negative: it raises when [n]
    does not convert, and else only when the product is out of range. *)
Lemma scaled_spec (n : Z) (s : float) :
  0 <= n -> nonneg_finite s ->
  match scaled n s with
  | Ok k =>
      0 <= k
      /\ (inject_Z k
          <= (inject_Z n * (1 + eps) + eta) * F2Q s * (1 + eps) + eta)%Q
      /\ n < 2 ^ 1024
  | Raise _ =>
      float_of_int n = Raise OverflowError
      \/ 1023 < Zdigits2 n + 1 + mag s
      \/ 971 < Z.max 0 (Zdigits2 n - 52) + expo s
  end.
Proof.
  intros Hn Hs. unfold scaled, int_mul_float.
  pose proof (float_of_int_spec n Hn) as Hconv.
  destruct (float_of_int n) as [f|e] eqn:Ef.
  - destruct Hconv as (Hf & Hup & Hlt & Hexp).
    destruct (SFmul_spec f s Hf Hs) as (Hnn & Hmul & Hfin).
    cbn [bind].
    assert (Hcase : nonneg_finite (SFmul prec emax f s)
                    \/ (1023 < Zdigits2 n + 1 + mag s
                        \/ 971 < Z.max 0 (Zdigits2 n - 52) + expo s)).
    { destruct (Z_le_gt_dec (Zdigits2 n + 1 + mag s) 1023) as [Hm|]; [|right; lia].
      destruct (Z_le_gt_dec (Z.max 0 (Zdigits2 n - 52) + expo s) 971)
        as [He|]; [|right; lia].
      left. pose proof (Zdigits2_nonneg n).
      apply Hfin.
      - destruct f as [| | |sf mf ef]; cbn [mag]; lia.
      - destruct f as [| | |sf mf ef]; cbn [expo]; lia. }
    destruct (SFmul prec emax f s) as [sp|sp| |sp mp ep] eqn:E.
    + cbn [int_of_float]. split; [lia|]. split; [|assumption].
      assert (0 <= F2Q s)%Q
        by (apply F2Q_nonneg, nonneg_finite_nonneg; assumption).
      pose proof eps_pos. pose proof eta_pos.
      assert (0 <= inject_Z n)%Q
        by (change 0%Q with (inject_Z 0); rewrite <- Zle_Qle; assumption).
      assert (0 <= inject_Z n * eps)%Q by (apply Qmult_le_0_compat; lra).
      assert (0 <= (inject_Z n * (1 + eps) + eta) * F2Q s)%Q
        by (apply Qmult_le_0_compat; lra).
      assert (0 <= (inject_Z n * (1 + eps) + eta) * F2Q s * eps)%Q
        by (apply Qmult_le_0_compat; lra).
      change (inject_Z 0) with 0%Q. lra.
    + cbn [int_of_float]. destruct Hcase as [Hc|Hc]; [contradiction | auto].
    + contradiction.
    + assert (Hp : nonneg_finite (S754_finite sp mp ep)).
      { destruct sp; [contradiction | exact I]. }
      destruct (int_of_float_spec _ Hp) as (k & -> & Hk & Hkq).
      split; [assumption|]. split; [|assumption].
      assert (0 <= F2Q s)%Q
        by (apply F2Q_nonneg, nonneg_finite_nonneg; assumption).
      pose proof eps_pos.
      assert (F2Q f * F2Q s <= (inject_Z n * (1 + eps) + eta) * F2Q s)%Q
        by (apply Qmult_le_compat_r; assumption).
      assert (F2Q f * F2Q s * (1 + eps)
              <= (inject_Z n * (1 + eps) + eta) * F2Q s * (1 + eps))%Q
        by (apply Qmult_le_compat_r; lra).
      lra.
  - left. f_equal. apply (float_of_int_raise n). assumption.
Qed.

End Multiplication.

(** ** The two stages of the image estimate *)

Section ScaleBound.

Local Open Scope Q_scope.

Lemma eps_val : (eps == 1 # 4503599627370496)%Q.
Proof. reflexivity. Qed.

Lemma scale_bound (X r S P C : Q) :
  (0 <= X <= pow2 1024 -> 0 < r <= 1 -> X * r <= C -> C <= 2048 ->
   0 <= S <= r * (1 + eps) + eta ->
   P <= (X * (1 + eps) + eta) * S * (1 + eps) + eta ->
   P < C + 1)%Q.
Proof.
  intros [HX0 HX] [Hr0 Hr] HXr HC [HS0 HS] HP.
  pose proof eps_pos as Heps. pose proof eta_pos as Heta.
  assert (Hee : (eta <= 1 # 1125899906842624)%Q).
  { apply Qle_trans with (pow2 (-50)); [apply pow2_le; lia | apply Qle_refl]. }
  assert (HXe : (X * eta <= 1 # 1125899906842624)%Q).
  { apply Qle_trans with (pow2 1024 * eta).
    - apply Qmult_le_compat_r; lra.
    - unfold eta. rewrite <- pow2_add. apply Qle_refl. }
  assert (Her : (eta * r <= eta)%Q).
  { rewrite <- (Qmult_1_r eta) at 2. apply Qmult_le_l; assumption. }
  assert (Hsq : (eta * eta <= eta)%Q).
  { rewrite <- (Qmult_1_r eta) at 3. apply Qmult_le_l; [assumption|].
    apply Qle_trans with (1 # 1125899906842624)%Q; [assumption|].
    discriminate. }
  assert (HA : (0 <= X * (1 + eps) + eta)%Q).
  { assert (0 <= X * eps)%Q by (apply Qmult_le_0_compat; lra). lra. }
  assert (HAS : ((X * (1 + eps) + eta) * S
                 <= (X * (1 + eps) + eta) * (r * (1 + eps) + eta))%Q).
  { apply Qmult_le_compat_nonneg; split; try assumption; apply Qle_refl. }
  assert (Hexpand : ((X * (1 + eps) + eta) * (r * (1 + eps) + eta)
                     == X * r * ((1 + eps) * (1 + eps))
                        + X * eta * (1 + eps)
                        + eta * r * (1 + eps) + eta * eta)%Q) by ring.
  rewrite Hexpand in HAS.
  assert (H0AS : (0 <= (X * (1 + eps) + eta) * S)%Q)
    by (apply Qmult_le_0_compat; assumption).
  assert (HP' : (P <= (X * r * ((1 + eps) * (1 + eps))
                       + X * eta * (1 + eps)
                       + eta * r * (1 + eps) + eta * eta) * (1 + eps) + eta)%Q).
  { apply Qle_trans with (1 := HP).
    apply Qplus_le_l. apply Qmult_le_compat_r; lra. }
  rewrite eps_val in HP'.
  generalize dependent (X * r)%Q. intros XR HXR _ HP'.
  generalize dependent (X * eta)%Q. intros Xe HXe HP'.
  generalize dependent (eta * r)%Q. intros er Her HP'.
  generalize dependent (eta * eta)%Q. intros ee Hee2 HP'.
  lra.
Qed.

End ScaleBound.

Section Stages.

Local Open Scope Z_scope.

Lemma inject_Z_nonneg (n : Z) : 0 <= n -> (0 <= inject_Z n)%Q.
Proof. intros H. change 0%Q with (inject_Z 0). rewrite <- Zle_Qle. assumption. Qed.

(** A side [n] with [n * target <= c * side] comes out of the scaling
    between 0 and [c]; the scaling raises only when [n] does not convert
    to a float. *)
Lemma scaled_by_quotient (target side n c : Z) (s : float) :
  0 < target <= 2048 -> target < side -> 0 <= n ->
  n * target <= c * side -> c <= 2048 ->
  int_truediv target side = Ok s ->
  match scaled n s with
  | Ok k => 0 <= k <= c
  | Raise _ => float_of_int n = Raise OverflowError
  end.
Proof.
  intros Ht Hts Hn Hc Hc' Hs.
  pose proof (int_truediv_spec target side ltac:(lia) ltac:(lia)) as Hdiv.
  rewrite Hs in Hdiv. destruct Hdiv as (Hnn & Hup & Hmag & Hexpo).
  pose proof (scaled_spec n s Hn Hnn) as Hsc.
  pose proof (float_of_int_spec n Hn) as Hconv.
  destruct (scaled n s) as [k|e].
  - destruct Hsc as (Hk & Hkq & Hlt). split; [assumption|].
    assert (Hside : (0 < inject_Z side)%Q)
      by (change 0%Q with (inject_Z 0); rewrite <- Zlt_Qlt; lia).
    assert (Hlt' : (inject_Z k < inject_Z c + 1)%Q).
    { apply (scale_bound (inject_Z n) (inject_Z target / inject_Z side)
               (F2Q s)).
      - split; [apply inject_Z_nonneg; assumption|].
        rewrite pow2_Z by lia. rewrite <- Zle_Qle. lia.
      - split.
        + apply Qlt_shift_div_l; [assumption|]. rewrite Qmult_0_l.
          change 0%Q with (inject_Z 0). rewrite <- Zlt_Qlt. lia.
        + apply Qle_shift_div_r; [assumption|]. rewrite Qmult_1_l.
          rewrite <- Zle_Qle. lia.
      - unfold Qdiv. rewrite Qmult_assoc.
        apply Qle_shift_div_r; [assumption|].
        rewrite <- !inject_Z_mult, <- Zle_Qle. assumption.
      - change 2048%Q with (inject_Z 2048). rewrite <- Zle_Qle. assumption.
      - split; [apply F2Q_nonneg, nonneg_finite_nonneg|]; assumption.
      - assumption. }
    change 1%Q with (inject_Z 1) in Hlt'.
    rewrite <- inject_Z_plus, <- Zlt_Qlt in Hlt'. lia.
  - destruct Hsc as [Hraise|Hbig]; [assumption|].
    destruct (float_of_int n) as [f|e'] eqn:Ef.
    + (* [n] converts: the product is far from the range's end *)
      exfalso. destruct Hconv as (_ & _ & Hlt & _).
      assert (Hdn : Zdigits2 n <= 1024) by (apply Zdigits2_le; lia).
      assert (Hdt : Zdigits2 target <= 12)
        by (apply Zdigits2_le; [lia|]; change (2 ^ 12) with 4096; lia).
      assert (Hds : Zdigits2 target <= Zdigits2 side)
        by (apply Zdigits2_mono; lia).
      assert (Hdns : Zdigits2 n <= Zdigits2 side + 11).
      { apply Z.le_trans with (Zdigits2 (side * 2 ^ 11)).
        - apply Zdigits2_mono. change (2 ^ 11) with 2048. nia.
        - rewrite Zdigits2_mul_pow2 by lia. lia. }
      pose proof (Zdigits2_nonneg n). lia.
    + f_equal. apply (float_of_int_raise n). assumption.
Qed.

Lemma scale_to_spec (target side width height cw ch : Z) :
  0 < target <= 2048 -> target < side -> 0 <= width -> 0 <= height ->
  width * target <= cw * side -> cw <= 2048 ->
  height * target <= ch * side -> ch <= 2048 ->
  match scale_to target side width height with
  | Ok (w, h) => 0 <= w <= cw /\ 0 <= h <= ch
  | Raise _ =>
      float_of_int width = Raise OverflowError
      \/ float_of_int height = Raise OverflowError
  end.
Proof.
  intros Ht Hts Hw Hh Hcw Hcw' Hch Hch'. unfold scale_to.
  pose proof (int_truediv_spec target side ltac:(lia) ltac:(lia)) as Hdiv.
  destruct (int_truediv target side) as [s|e] eqn:Es.
  - cbn [bind].
    pose proof (scaled_by_quotient target side width cw s
                  Ht Hts Hw Hcw Hcw' Es) as H1.
    pose proof (scaled_by_quotient target side height ch s
                  Ht Hts Hh Hch Hch' Es) as H2.
    destruct (scaled width s) as [w|e]; cbn [bind]; [|auto].
    destruct (scaled height s) as [h|e]; cbn [bind]; auto.
  - exfalso.
    pose proof (Zdigits2_mono target side ltac:(lia)). lia.
Qed.

(** After the first stage both sides are at most 2048; the stage raises
    only when a side does not convert to a float. *)
Lemma limit_larger_side_spec (width height : Z) :
  0 <= width -> 0 <= height ->
  match limit_larger_side width height with
  | Ok (w, h) => 0 <= w <= 2048 /\ 0 <= h <= 2048
  | Raise _ =>
      float_of_int width = Raise OverflowError
      \/ float_of_int height = Raise OverflowError
  end.
Proof.
  intros Hw Hh. unfold limit_larger_side.
  destruct (Z.gtb_spec (Z.max width height) 2048) as [Hbig|Hsmall].
  - apply scale_to_spec; lia.
  - lia.
Qed.

Lemma float_of_int_small (n : Z) :
  0 <= n < 2 ^ 1023 -> exists f, float_of_int n = Ok f.
Proof.
  intros [H0 Hn]. pose proof (float_of_int_spec n H0) as H.
  destruct (float_of_int n) as [f|e]; [eauto | lia].
Qed.

(** The second stage never raises on sides up to 2048, keeps them up to
    2048 and leaves the smaller one at most 768. *)
Lemma limit_smaller_side_spec (width height : Z) :
  0 <= width <= 2048 -> 0 <= height <= 2048 ->
  exists w h,
    limit_smaller_side width height = Ok (w, h)
    /\ 0 <= w <= 2048 /\ 0 <= h <= 2048 /\ Z.min w h <= 768.
Proof.
  intros Hw Hh. unfold limit_smaller_side.
  destruct (Z.gtb_spec (Z.min width height) 768) as [Hbig|Hsmall].
  - assert (Hpow : 2048 < 2 ^ 1023).
    { apply Z.lt_le_trans with (2 ^ 12); [reflexivity|].
      apply Z.pow_le_mono_r; lia. }
    destruct (float_of_int_small width ltac:(lia)) as (fw & Efw).
    destruct (float_of_int_small height ltac:(lia)) as (fh & Efh).
    destruct (Z_le_gt_dec width height) as [Hle|Hgt].
    + pose proof (scale_to_spec 768 (Z.min width height) width height
                    768 2048 ltac:(lia) ltac:(lia) ltac:(lia) ltac:(lia)
                    ltac:(lia) ltac:(lia) ltac:(lia) ltac:(lia)) as H.
      destruct (scale_to 768 (Z.min width height) width height)
        as [[w h]|e].
      * exists w, h. repeat split; lia.
      * destruct H as [H|H]; congruence.
    + pose proof (scale_to_spec 768 (Z.min width height) width height
                    2048 768 ltac:(lia) ltac:(lia) ltac:(lia) ltac:(lia)
                    ltac:(lia) ltac:(lia) ltac:(lia) ltac:(lia)) as H.
      destruct (scale_to 768 (Z.min width height) width height)
        as [[w h]|e].
      * exists w, h. repeat split; lia.
      * destruct H as [H|H]; congruence.
  - exists width, height. repeat split; lia.
Qed.

End Stages.

(** ** The image estimate *)

Section ImageFacts.

Local Open Scope Z_scope.

Lemma masks_exact_upto_2048 :
  forallb masks_exact (map Z.of_nat (seq 0 2049)) = true.
Proof. vm_compute. reflexivity. Qed.

(** On a side up to 2048, [math.ceil(x / 512)] is the integer ceiling. *)
Lemma masks_spec (x : Z) : 0 <= x <= 2048 -> masks x = Ok (ceil_div x 512).
Proof.
  intros Hx.
  pose proof masks_exact_upto_2048 as H.
  rewrite forallb_forall in H.
  specialize (H x). unfold masks_exact in H.
  destruct (masks x) as [n|e].
  - f_equal. apply Z.eqb_eq, H.
    rewrite <- (Z2Nat.id x) by lia. apply in_map, in_seq. lia.
  - discriminate H.
    rewrite <- (Z2Nat.id x) by lia. apply in_map, in_seq. lia.
Qed.

Lemma masks_bind (x : Z) {A : Type} (k : Z -> result A) :
  0 <= x <= 2048 ->
  (q <- int_truediv x 512 ;; n <- ceil q ;; k n) = k (ceil_div x 512).
Proof.
  intros Hx. pose proof (masks_spec x Hx) as H. unfold masks in H.
  destruct (int_truediv x 512) as [q|e]; cbn [bind] in *; [|discriminate].
  rewrite H. reflexivity.
Qed.

(** The function is its two stages, one after the other, then the tile
    count of what the second stage returns. *)
Lemma calculate_image_tokens_stages (width height : Z) (detail : string) :
  0 <= width -> 0 <= height -> detail <> "low" ->
  calculate_image_tokens width height detail
  = ('(w1, h1) <- limit_larger_side width height ;;
     '(w2, h2) <- limit_smaller_side w1 h1 ;;
     Ok (tile_tokens w2 h2)).
Proof.
  intros Hw Hh Hd.
  assert (E : calculate_image_tokens width height detail
    = ('(w1, h1) <- limit_larger_side width height ;;
       '(w2, h2) <- limit_smaller_side w1 h1 ;;
       q_w <- int_truediv w2 512 ;;
       num_masks_w <- ceil q_w ;;
       q_h <- int_truediv h2 512 ;;
       num_masks_h <- ceil q_h ;;
       Ok (num_masks_w * num_masks_h * 170 + 85))).
  { unfold calculate_image_tokens.
    destruct (String.eqb_spec detail "low") as [|_]; [contradiction|].
    reflexivity. }
  rewrite E.
  pose proof (limit_larger_side_spec width height Hw Hh) as H1.
  destruct (limit_larger_side width height) as [[w1 h1]|e]; [|reflexivity].
  cbn [bind]. destruct H1 as [Hw1 Hh1].
  destruct (limit_smaller_side_spec w1 h1 Hw1 Hh1)
    as (w2 & h2 & -> & Hw2 & Hh2 & _).
  cbn [bind]. rewrite (masks_bind w2 _ Hw2), (masks_bind h2 _ Hh2).
  reflexivity.
Qed.

Lemma ceil_div_512_bounds (x c : Z) :
  0 <= x <= 512 * c -> 0 <= ceil_div x 512 <= c.
Proof.
  intros Hx. unfold ceil_div. split.
  - apply Z.div_pos; lia.
  - assert ((x + 512 - 1) / 512 < c + 1); [|lia].
    apply Z.div_lt_upper_bound; lia.
Qed.

Lemma tile_tokens_bounds (w h : Z) :
  0 <= w <= 2048 -> 0 <= h <= 2048 -> Z.min w h <= 768 ->
  85 <= tile_tokens w h <= 1445.
Proof.
  intros Hw Hh Hmin. unfold tile_tokens.
  pose proof (ceil_div_512_bounds w 4 ltac:(lia)) as Hcw.
  pose proof (ceil_div_512_bounds h 4 ltac:(lia)) as Hch.
  assert (Hsmall : ceil_div w 512 <= 2 \/ ceil_div h 512 <= 2).
  { destruct (Z_le_gt_dec w h).
    - left. apply (ceil_div_512_bounds w 2). lia.
    - right. apply (ceil_div_512_bounds h 2). lia. }
  nia.
Qed.


(** C7. With detail ["low"] the result is 85, whatever the sides. *)
Theorem calculate_image_tokens_low (width height : Z) :
  calculate_image_tokens width height "low" = Ok 85.
Proof. reflexivity. Qed.

(** C10. For sides that are not negative and a detail other than ["low"]:
    the two stages leave the smaller side at most 768 and the larger at
    most 2048, so at most 8 tiles; whatever [calculate_image_tokens]
    returns is at least 85 and at most 1445 = 8 * 170 + 85; and it does
    return a count for all sides below [2 ^ 1023]. *)
Theorem calculate_image_tokens_bounds
  (width height : Z) (detail : string) :
  0 <= width -> 0 <= height -> detail <> "low" ->
  (forall w1 h1 w2 h2,
     limit_larger_side width height = Ok (w1, h1) ->
     limit_smaller_side w1 h1 = Ok (w2, h2) ->
     0 <= Z.min w2 h2 <= 768 /\ Z.max w2 h2 <= 2048
     /\ 0 <= ceil_div w2 512 * ceil_div h2 512 <= 8)
  /\ (forall tokens,
        calculate_image_tokens width height detail = Ok tokens ->
        85 <= tokens <= 1445)
  /\ (width < 2 ^ 1023 -> height < 2 ^ 1023 ->
      exists tokens, calculate_image_tokens width height detail = Ok tokens).
Proof.
  intros Hw Hh Hd.
  rewrite (calculate_image_tokens_stages width height detail Hw Hh Hd).
  pose proof (limit_larger_side_spec width height Hw Hh) as H1.
  destruct (limit_larger_side width height) as [[w1 h1]|e].
  - destruct H1 as [Hw1 Hh1]. cbn [bind].
    destruct (limit_smaller_side_spec w1 h1 Hw1 Hh1)
      as (w2 & h2 & E2 & Hw2 & Hh2 & Hmin).
    pose proof (tile_tokens_bounds w2 h2 Hw2 Hh2 Hmin) as Htiles.
    split; [|split].
    + intros w1' h1' w2' h2' [= <- <-] E2'.
      rewrite E2 in E2'. injection E2' as <- <-.
      unfold tile_tokens in Htiles. lia.
    + rewrite E2. cbn [bind]. intros tokens [= <-]. assumption.
    + intros _ _. rewrite E2. eexists. reflexivity.
  - cbn [bind]. split; [discriminate|]. split; [discriminate|].
    intros Hw' Hh'. exfalso.
    destruct (float_of_int_small width ltac:(lia)) as (fw & Efw).
    destruct (float_of_int_small height ltac:(lia)) as (fh & Efh).
    destruct H1 as [H1|H1]; congruence.
Qed.

End ImageFacts.


Lemma calculate_image_tokens_bounds_witness :
  0 <= 4096 /\ 0 <= 3000 /\ "auto" <> "low"
  /\ (forall tokens,
        calculate_image_tokens 4096 3000 "auto" = Ok tokens ->
        85 <= tokens <= 1445).
Proof.
  assert (Hd : "auto" <> "low") by discriminate.
  split; [lia|]. split; [lia|]. split; [exact Hd|].
  exact (proj1 (proj2 (calculate_image_tokens_bounds 4096 3000 "auto"
                         ltac:(lia) ltac:(lia) Hd))).
Defined.

(** ** Where the float arithmetic shows *)

Section FloatEffects.

Local Open Scope Z_scope.

Lemma scaled_raise (n : Z) (s : float) (e : exn) :
  0 <= n -> nonneg_finite s -> scaled n s = Raise e -> e = OverflowError.
Proof.
  intros Hn Hs. unfold scaled, int_mul_float.
  pose proof (float_of_int_spec n Hn) as Hconv.
  destruct (float_of_int n) as [f|e'] eqn:E.
  - destruct Hconv as (Hf & _).
    destruct (SFmul_spec f s Hf Hs) as (Hnn & _). cbn [bind].
    destruct (SFmul prec emax f s) as [sp|[|]| |sp mp ep];
      cbn [int_of_float]; try congruence; contradiction.
  - cbn [bind]. intros [= <-]. apply (float_of_int_raise n). assumption.
Qed.

Lemma scaled_overflow (n : Z) (s : float) :
  float_of_int n = Raise OverflowError -> scaled n s = Raise OverflowError.
Proof. intros H. unfold scaled, int_mul_float. rewrite H. reflexivity. Qed.

(** X2. For sides that are not negative and a detail other than ["low"],
    the function raises exactly when a side is too large to convert to a
    float, which is so from [2 ^ 1024] on; it raises [OverflowError] and
    nothing else. *)
Theorem calculate_image_tokens_overflow
  (width height : Z) (detail : string) :
  detail <> "low" -> 0 <= width -> 0 <= height ->
  (calculate_image_tokens width height detail = Raise OverflowError
   <-> (float_of_int width = Raise OverflowError
        \/ float_of_int height = Raise OverflowError))
  /\ (forall e,
        calculate_image_tokens width height detail = Raise e ->
        e = OverflowError)
  /\ (2 ^ 1024 <= Z.max width height ->
      calculate_image_tokens width height detail = Raise OverflowError).
Proof.
  intros Hd Hw Hh.
  assert (Hraise : float_of_int width = Raise OverflowError
                   \/ float_of_int height = Raise OverflowError ->
                   calculate_image_tokens width height detail
                   = Raise OverflowError).
  { intros Hconv.
    rewrite (calculate_image_tokens_stages width height detail Hw Hh Hd).
    assert (H2048 : 2048 < 2 ^ 1023).
    { apply Z.lt_le_trans with (2 ^ 12); [reflexivity|].
      apply Z.pow_le_mono_r; lia. }
    assert (Hbig : 2048 < Z.max width height).
    { pose proof (float_of_int_spec width Hw) as Hcw.
      pose proof (float_of_int_spec height Hh) as Hch.
      destruct Hconv as [E|E]; rewrite E in *; lia. }
    unfold limit_larger_side, scale_to.
    replace (Z.max width height >? 2048) with true
      by (symmetry; apply Z.gtb_lt; lia).
    pose proof (int_truediv_spec 2048 (Z.max width height)
                  ltac:(lia) ltac:(lia)) as Hdiv.
    destruct (int_truediv 2048 (Z.max width height)) as [s|e].
    - destruct Hdiv as (Hs & _). cbn [bind].
      destruct (scaled width s) as [w1|e] eqn:Ew; cbn [bind].
      + destruct Hconv as [E|E].
        * rewrite (scaled_overflow width s E) in Ew. discriminate.
        * rewrite (scaled_overflow height s E). reflexivity.
      + f_equal. apply (scaled_raise width s); assumption.
    - exfalso.
      pose proof (Zdigits2_mono 2048 (Z.max width height) ltac:(lia)). lia. }
  assert (Hconv : forall e,
            calculate_image_tokens width height detail = Raise e ->
            float_of_int width = Raise OverflowError
            \/ float_of_int height = Raise OverflowError).
  { intros e.
    rewrite (calculate_image_tokens_stages width height detail Hw Hh Hd).
    pose proof (limit_larger_side_spec width height Hw Hh) as H1.
    destruct (limit_larger_side width height) as [[w1 h1]|e'].
    - destruct H1 as [Hw1 Hh1]. cbn [bind].
      destruct (limit_smaller_side_spec w1 h1 Hw1 Hh1)
        as (w2 & h2 & -> & _).
      discriminate.
    - intros _. assumption. }
  split; [split; [apply Hconv | apply Hraise]|]. split.
  - intros e He. specialize (Hraise (Hconv e He)). congruence.
  - intros Hbig. apply Hraise.
    pose proof (float_of_int_spec width Hw) as Hcw.
    pose proof (float_of_int_spec height Hh) as Hch.
    destruct (float_of_int width) as [fw|ew] eqn:Ew.
    + destruct (float_of_int height) as [fh|eh] eqn:Eh.
      * lia.
      * right. f_equal. apply (float_of_int_raise height). assumption.
    + left. f_equal. apply (float_of_int_raise width). assumption.
Qed.

(** X1. The first stage does not always leave the larger side at 2048: the
    product [2498 * (2048 / 2498)] is just below 2048 in binary64 and is
    truncated to 2047, and the estimate is 1105 where scaling in exact
    arithmetic (2048 x 1023, then 1537 x 768) would give 1445. *)
Theorem first_stage_below_2048 :
  limit_larger_side 2498 1248 = Ok (2047, 1023)
  /\ limit_smaller_side 2047 1023 = Ok (1536, 768)
  /\ calculate_image_tokens 2498 1248 "high" = Ok 1105
  /\ (2498 * 2048 / 2498 = 2048 /\ 1248 * 2048 / 2498 = 1023
      /\ 2048 * 768 / 1023 = 1537 /\ 1023 * 768 / 1023 = 768
      /\ tile_tokens 1537 768 = 1445).
Proof. vm_compute. repeat split; reflexivity. Qed.

End FloatEffects.

Lemma calculate_image_tokens_overflow_witness :
  "high" <> "low" /\ 0 <= 2 ^ 1024 /\ 0 <= 1
  /\ (forall e,
        calculate_image_tokens (2 ^ 1024) 1 "high" = Raise e ->
        e = OverflowError).
Proof.
  assert (Hd : "high" <> "low") by discriminate.
  assert (H0 : 0 <= 2 ^ 1024) by (apply Z.pow_nonneg; lia).
  split; [exact Hd|]. split; [exact H0|]. split; [lia|].
  exact (proj1 (proj2 (calculate_image_tokens_overflow (2 ^ 1024) 1 "high"
                         Hd H0 ltac:(lia)))).
Defined.

(** ** More on counting and truncating *)

Section MoreTokensFacts.

Context {tk : Tiktoken}.

Lemma count_messages_shift (encoding : Encoding) (overhead : Z)
  (messages : list message) :
  forall n,
    count_messages encoding overhead messages n
    = (k <- count_messages encoding overhead messages 0 ;; Ok (n + k)).
Proof.
  intros n. rewrite !count_messages_spec.
  destruct (fault encoding messages); reflexivity.
Qed.

Lemma count_messages_app (encoding : Encoding) (overhead : Z)
  (first second : list message) :
  forall n,
    count_messages encoding overhead (first ++ second) n
    = (k <- count_messages encoding overhead first n ;;
       count_messages encoding overhead second k).
Proof.
  induction first as [|m rest IH]; intros n; cbn [app count_messages].
  - reflexivity.
  - destruct (count_fields encoding m (n + overhead)) as [k|e]; cbn [bind];
      [apply IH | reflexivity].
Qed.

(** X3. The count of two message lists put end to end is the sum of
    their counts; when the first list raises, so does the whole, and
    else when the second does. *)
Theorem num_tokens_from_messages_app
  (first second : list message) (model : string) :
  num_tokens_from_messages (first ++ second) model
  = (a <- num_tokens_from_messages first model ;;
     b <- num_tokens_from_messages second model ;;
     Ok (a + b)).
Proof.
  unfold num_tokens_from_messages.
  rewrite count_messages_app.
  destruct (count_messages (resolve_encoding model) (tokens_per_message model)
              first 0) as [a|e]; cbn [bind]; [|reflexivity].
  apply count_messages_shift.
Qed.

Lemma first_fault_some {A : Type} (f : A -> option exn) (l : list A)
  (e : exn) :
  first_fault f l = Some e -> exists a, In a l /\ f a = Some e.
Proof.
  induction l as [|a rest IH]; cbn [first_fault]; [discriminate|].
  destruct (f a) as [e'|] eqn:Ea.
  - intros H. exists a. split; [left; reflexivity | congruence].
  - intros H. destruct (IH H) as (b & Hb & Eb).
    exists b. split; [right; assumption | assumption].
Qed.

Lemma text_fault_kind (encoding : Encoding) (v : option value) (e : exn) :
  text_fault encoding v = Some e ->
  e = TypeError \/ exists s, encode encoding s = Raise e.
Proof.
  unfold text_fault.
  destruct v as [[| | | |s| |]|]; try (left; congruence).
  destruct (encode encoding s) as [toks|e'] eqn:Es; [discriminate|].
  intros H. right. exists s. congruence.
Qed.

Lemma fault_kind (encoding : Encoding) (messages : list message) (e : exn) :
  fault encoding messages = Some e ->
  e = AttributeError \/ e = TypeError
  \/ exists s, encode encoding s = Raise e.
Proof.
  intros H.
  destruct (first_fault_some _ _ _ H) as (m & _ & Hm).
  destruct (first_fault_some _ _ _ Hm) as ([key v] & _ & Hv).
  cbn [snd] in Hv.
  assert (Htext : forall w, text_fault encoding w = Some e ->
            e = AttributeError \/ e = TypeError
            \/ exists s, encode encoding s = Raise e).
  { intros w Hw. right. apply (text_fault_kind encoding w e Hw). }
  destruct v as [| | | |s|items|fields]; cbn [field_fault] in Hv;
    try (apply (Htext _ Hv)).
  destruct (first_fault_some _ _ _ Hv) as (item & _ & Hitem).
  destruct item as [| | | | | |fields]; cbn [part_fault] in Hitem;
    try (left; congruence).
  destruct (eq_str (get "type" fields) "text"); [|discriminate].
  apply (Htext _ Hitem).
Qed.

(** X4. [num_tokens_from_messages] returns a count exactly on the lists
    with nothing at fault; on any other list it raises, and what it
    raises is the first fault in reading order: [AttributeError] for an
    item of a list that is not a dict, [TypeError] for a value handed to
    the tokenizer that is not a string (a content that is [None], a part
    of type ["text"] without a text), or what [encode] raises on a
    string it refuses.  Nothing else is raised. *)
Theorem num_tokens_from_messages_raises
  (messages : list message) (model : string) :
  (well_formed (resolve_encoding model) messages = true
   <-> exists n, num_tokens_from_messages messages model = Ok n)
  /\ (forall e,
        fault (resolve_encoding model) messages = Some e
        <-> num_tokens_from_messages messages model = Raise e)
  /\ (forall e,
        num_tokens_from_messages messages model = Raise e ->
        e = AttributeError \/ e = TypeError
        \/ exists s, encode (resolve_encoding model) s = Raise e).
Proof.
  unfold num_tokens_from_messages, well_formed.
  rewrite count_messages_spec.
  destruct (fault (resolve_encoding model) messages) as [e'|] eqn:Ef.
  - split; [split; [discriminate | intros [n Hn]; discriminate]|].
    split; [intros e; split; congruence|].
    intros e He. apply (fault_kind _ messages). congruence.
  - split; [split; eauto|].
    split; [intros e; split; discriminate | discriminate].
Qed.

(** X5. The count that [split_tokens_from_content] returns is the smaller
    of the text's token count and [max_tokens], and the reason is
    ["stop"] exactly when the token count is below [max_tokens]; the
    call returns exactly when [num_tokens_from_content] does, and raises
    the same exception when it does not. *)
Theorem split_tokens_from_content_min
  (content : string) (max_tokens : Z) (model : string) :
  match num_tokens_from_content content model,
        split_tokens_from_content content max_tokens model with
  | Ok n, Ok (_, token_count, reason) =>
      token_count = Z.min n max_tokens
      /\ (reason = "stop" <-> n < max_tokens)
  | Raise e, Raise e' => e = e'
  | _, _ => False
  end.
Proof.
  unfold split_tokens_from_content, num_tokens_from_content.
  destruct (encode (resolve_encoding model) content) as [encoded|e];
    cbn [bind]; [|reflexivity].
  set (n := len encoded).
  rewrite Z.geb_leb.
  destruct (Z.leb_spec max_tokens n) as [H|H].
  - split; [lia|]. split; [discriminate | lia].
  - split; [lia|]. split; [intros _; assumption | reflexivity].
Qed.

Lemma slice_to_len {A : Type} (l : list A) : slice_to l (len l) = l.
Proof.
  unfold slice_to, len.
  replace (0 <=? Z.of_nat (List.length l)) with true
    by (symmetry; apply Z.leb_le; lia).
  rewrite Nat2Z.id. apply firstn_all.
Qed.

(** X6. When [max_tokens] is exactly the text's token count, nothing is
    cut -- every token is decoded -- and yet the reason is ["length"]. *)
Theorem split_tokens_from_content_exact_fit (content model : string) :
  (n <- num_tokens_from_content content model ;;
   split_tokens_from_content content n model)
  = (encoded <- encode (resolve_encoding model) content ;;
     Ok (decode (resolve_encoding model) encoded, len encoded, "length")).
Proof.
  unfold split_tokens_from_content, num_tokens_from_content.
  destruct (encode (resolve_encoding model) content) as [encoded|e];
    cbn [bind]; [|reflexivity].
  replace (len encoded >=? len encoded) with true
    by (symmetry; rewrite Z.geb_leb; apply Z.leb_refl).
  rewrite slice_to_len. reflexivity.
Qed.

End MoreTokensFacts.

(** ** More on the image estimate *)

Section MoreImageFacts.

Local Open Scope Z_scope.

Lemma scale_to_swap (target side width height : Z) :
  0 < target -> 0 < side -> 0 <= width -> 0 <= height ->
  scale_to target side height width
  = swapped (scale_to target side width height).
Proof.
  intros Ht Hs Hw Hh. unfold scale_to.
  pose proof (int_truediv_spec target side Ht Hs) as Hdiv.
  destruct (int_truediv target side) as [s|e]; [|reflexivity].
  destruct Hdiv as (Hnn & _). cbn [bind].
  pose proof (scaled_raise width s) as Rw.
  pose proof (scaled_raise height s) as Rh.
  destruct (scaled width s) as [w|ew]; destruct (scaled height s) as [h|eh];
    cbn [bind swapped]; try reflexivity.
  rewrite (Rw ew), (Rh eh) by auto. reflexivity.
Qed.

Lemma limit_larger_side_swap (width height : Z) :
  0 <= width -> 0 <= height ->
  limit_larger_side height width = swapped (limit_larger_side width height).
Proof.
  intros Hw Hh. unfold limit_larger_side. rewrite (Z.max_comm height width).
  destruct (Z.gtb_spec (Z.max width height) 2048); [|reflexivity].
  apply scale_to_swap; lia.
Qed.

Lemma limit_smaller_side_swap (width height : Z) :
  0 <= width -> 0 <= height ->
  limit_smaller_side height width = swapped (limit_smaller_side width height).
Proof.
  intros Hw Hh. unfold limit_smaller_side. rewrite (Z.min_comm height width).
  destruct (Z.gtb_spec (Z.min width height) 768); [|reflexivity].
  apply scale_to_swap; lia.
Qed.

(** X7. The estimate does not change when width and height are
    exchanged, whether it is a count or an exception. *)
Theorem calculate_image_tokens_symmetric
  (width height : Z) (detail : string) :
  0 <= width -> 0 <= height ->
  calculate_image_tokens height width detail
  = calculate_image_tokens width height detail.
Proof.
  intros Hw Hh.
  destruct (String.eqb_spec detail "low") as [->|Hd]; [reflexivity|].
  rewrite !calculate_image_tokens_stages by assumption.
  rewrite (limit_larger_side_swap width height Hw Hh).
  pose proof (limit_larger_side_spec width height Hw Hh) as H1.
  destruct (limit_larger_side width height) as [[w1 h1]|e];
    cbn [swapped bind]; [|reflexivity].
  rewrite (limit_smaller_side_swap w1 h1) by lia.
  destruct (limit_smaller_side w1 h1) as [[w2 h2]|e];
    cbn [swapped bind]; [|reflexivity].
  unfold tile_tokens. f_equal. ring.
Qed.

(** X8. On an image that needs no resizing -- no side above 2048, the
    smaller at most 768 -- no float rounding enters: the estimate is the
    tile count on the sides as given. *)
Theorem calculate_image_tokens_no_resize
  (width height : Z) (detail : string) :
  detail <> "low" ->
  0 <= width <= 2048 -> 0 <= height <= 2048 -> Z.min width height <= 768 ->
  calculate_image_tokens width height detail
  = Ok (ceil_div width 512 * ceil_div height 512 * 170 + 85).
Proof.
  intros Hd Hw Hh Hmin.
  rewrite calculate_image_tokens_stages by (assumption || lia).
  unfold limit_larger_side.
  replace (Z.max width height >? 2048) with false
    by (symmetry; rewrite Z.gtb_ltb; apply Z.ltb_ge; lia).
  cbn [bind]. unfold limit_smaller_side.
  replace (Z.min width height >? 768) with false
    by (symmetry; rewrite Z.gtb_ltb; apply Z.ltb_ge; lia).
  reflexivity.
Qed.

End MoreImageFacts.

Lemma calculate_image_tokens_symmetric_witness :
  0 <= 2498 /\ 0 <= 1248
  /\ calculate_image_tokens 1248 2498 "high"
     = calculate_image_tokens 2498 1248 "high".
Proof.
  split; [lia|]. split; [lia|].
  exact (calculate_image_tokens_symmetric 2498 1248 "high"
           ltac:(lia) ltac:(lia)).
Defined.

Lemma calculate_image_tokens_no_resize_witness :
  "high" <> "low" /\ 0 <= 1920 <= 2048 /\ 0 <= 600 <= 2048
  /\ Z.min 1920 600 <= 768
  /\ calculate_image_tokens 1920 600 "high" = Ok 1445.
Proof.
  assert (Hd : "high" <> "low") by discriminate.
  split; [exact Hd|]. split; [lia|]. split; [lia|]. split; [lia|].
  exact (calculate_image_tokens_no_resize 1920 600 "high"
           Hd ltac:(lia) ltac:(lia) ltac:(lia)).
Defined.

Section ThinImages.

Local Open Scope Q_scope.

Lemma scale_bound_below_one (X r S P : Q) :
  0 <= X <= 281474976710656 -> 0 < r <= 1 ->
  X * r <= 281474976710655 # 281474976710656 ->
  0 <= S <= r * (1 + eps) + eta ->
  P <= (X * (1 + eps) + eta) * S * (1 + eps) + eta ->
  P < 1.
Proof.
  intros [HX0 HX] [Hr0 Hr] HXr [HS0 HS] HP.
  pose proof eps_pos as Heps. pose proof eta_pos as Heta.
  assert (Hee : eta <= 1 # 1152921504606846976).
  { apply Qle_trans with (pow2 (-60)); [apply pow2_le; lia | apply Qle_refl]. }
  assert (HXe : X * eta <= 1 # 1152921504606846976).
  { apply Qle_trans with (pow2 48 * eta).
    - apply Qmult_le_compat_r; [|lra].
      apply Qle_trans with (1 := HX). apply Qle_refl.
    - unfold eta. rewrite <- pow2_add.
      apply Qle_trans with (pow2 (-60)); [apply pow2_le; lia | apply Qle_refl]. }
  assert (Her : eta * r <= eta).
  { rewrite <- (Qmult_1_r eta) at 2. apply Qmult_le_l; assumption. }
  assert (Hsq : eta * eta <= eta).
  { rewrite <- (Qmult_1_r eta) at 3. apply Qmult_le_l; [assumption|].
    apply Qle_trans with (1 # 1152921504606846976); [assumption|].
    discriminate. }
  assert (HA : 0 <= X * (1 + eps) + eta).
  { assert (0 <= X * eps) by (apply Qmult_le_0_compat; lra). lra. }
  assert (HAS : (X * (1 + eps) + eta) * S
                <= (X * (1 + eps) + eta) * (r * (1 + eps) + eta)).
  { apply Qmult_le_compat_nonneg; split; try assumption; apply Qle_refl. }
  assert (Hexpand : (X * (1 + eps) + eta) * (r * (1 + eps) + eta)
                    == X * r * ((1 + eps) * (1 + eps))
                       + X * eta * (1 + eps)
                       + eta * r * (1 + eps) + eta * eta) by ring.
  rewrite Hexpand in HAS.
  assert (HP' : P <= (X * r * ((1 + eps) * (1 + eps))
                      + X * eta * (1 + eps)
                      + eta * r * (1 + eps) + eta * eta) * (1 + eps) + eta).
  { apply Qle_trans with (1 := HP).
    apply Qplus_le_l. apply Qmult_le_compat_r; lra. }
  rewrite eps_val in HP'.
  generalize dependent (X * r). intros XR HXR _ HP'.
  generalize dependent (X * eta). intros Xe HXe HP'.
  generalize dependent (eta * r). intros er Her HP'.
  generalize dependent (eta * eta). intros ee Hee2 HP'.
  lra.
Qed.

End ThinImages.

Section ThinImageFacts.

Local Open Scope Z_scope.

(** A side whose exact scaled length is below 1 comes out as 0. *)
Lemma scaled_to_zero (target side n : Z) (s : float) :
  0 < target <= 2048 -> target < side <= 2 ^ 48 -> 0 <= n ->
  n * target < side ->
  int_truediv target side = Ok s ->
  scaled n s = Ok 0.
Proof.
  intros Ht Hts Hn Hlt Hs.
  change (2 ^ 48) with 281474976710656 in Hts.
  pose proof (int_truediv_spec target side ltac:(lia) ltac:(lia)) as Hdiv.
  rewrite Hs in Hdiv. destruct Hdiv as (Hnn & Hup & _).
  pose proof (scaled_by_quotient target side n 1 s
                Ht ltac:(lia) Hn ltac:(lia) ltac:(lia) Hs) as Hq.
  pose proof (scaled_spec n s Hn Hnn) as Hsc.
  assert (Hn48 : n < 281474976710656) by nia.
  destruct (scaled n s) as [k|e].
  - destruct Hsc as (Hk & Hkq & _). f_equal.
    assert (Hside : (0 < inject_Z side)%Q)
      by (change 0%Q with (inject_Z 0); rewrite <- Zlt_Qlt; lia).
    assert (Hlt' : (inject_Z k < 1)%Q).
    { apply (scale_bound_below_one (inject_Z n)
               (inject_Z target / inject_Z side) (F2Q s)).
      - split; [apply inject_Z_nonneg; assumption|].
        change 281474976710656%Q with (inject_Z 281474976710656).
        rewrite <- Zle_Qle. lia.
      - split.
        + apply Qlt_shift_div_l; [assumption|]. rewrite Qmult_0_l.
          change 0%Q with (inject_Z 0). rewrite <- Zlt_Qlt. lia.
        + apply Qle_shift_div_r; [assumption|]. rewrite Qmult_1_l.
          rewrite <- Zle_Qle. lia.
      - unfold Qdiv. rewrite Qmult_assoc.
        apply Qle_shift_div_r; [assumption|].
        rewrite <- inject_Z_mult.
        unfold Qle, Qmult, inject_Z. cbn [Qnum Qden].
        rewrite Pos.mul_1_r, Z.mul_1_r. nia.
      - split; [apply F2Q_nonneg, nonneg_finite_nonneg|]; assumption.
      - assumption. }
    change 1%Q with (inject_Z 1) in Hlt'. rewrite <- Zlt_Qlt in Hlt'. lia.
  - exfalso.
    assert (H1023 : 281474976710656 < 2 ^ 1023).
    { change 281474976710656 with (2 ^ 48). apply Z.pow_lt_mono_r; lia. }
    destruct (float_of_int_small n ltac:(lia)) as (f & Ef). congruence.
Qed.

(** X9. A side can vanish in the first stage: when the height exceeds
    2048 (and is at most [2 ^ 48]) and the width is less than
    [height / 2048], the width is scaled to 0 and the estimate is the
    base 85, as for an empty image -- also when the width is 1 or more. *)
Theorem calculate_image_tokens_thin (width height : Z) (detail : string) :
  detail <> "low" -> 0 <= width -> 2048 < height <= 2 ^ 48 ->
  width * 2048 < height ->
  calculate_image_tokens width height detail = Ok 85.
Proof.
  intros Hd Hw Hh Hthin.
  assert (H48 : 2 ^ 48 < 2 ^ 1023) by (apply Z.pow_lt_mono_r; lia).
  rewrite calculate_image_tokens_stages by (assumption || lia).
  unfold limit_larger_side.
  replace (Z.max width height) with height by lia.
  replace (height >? 2048) with true by (symmetry; apply Z.gtb_lt; lia).
  unfold scale_to.
  pose proof (int_truediv_spec 2048 height ltac:(lia) ltac:(lia)) as Hdiv.
  destruct (int_truediv 2048 height) as [s|e] eqn:Es.
  - cbn [bind].
    rewrite (scaled_to_zero 2048 height width s) by (assumption || lia).
    cbn [bind].
    pose proof (scaled_by_quotient 2048 height height 2048 s
                  ltac:(lia) ltac:(lia) ltac:(lia) ltac:(lia) ltac:(lia) Es)
      as Hsh.
    destruct (scaled height s) as [h1|e] eqn:Eh.
    + cbn [bind]. unfold limit_smaller_side.
      replace (Z.min 0 h1) with 0 by lia.
      reflexivity.
    + exfalso.
      destruct (float_of_int_small height ltac:(lia)) as (f & Ef). congruence.
  - exfalso. pose proof (Zdigits2_mono 2048 height ltac:(lia)). lia.
Qed.

End ThinImageFacts.

Lemma calculate_image_tokens_thin_witness :
  "high" <> "low" /\ 0 <= 2 /\ 2048 < 5000 <= 2 ^ 48 /\ 2 * 2048 < 5000
  /\ calculate_image_tokens 2 5000 "high" = Ok 85.
Proof.
  assert (Hd : "high" <> "low") by discriminate.
  assert (Hh : 2048 < 5000 <= 2 ^ 48) by (split; [lia | discriminate]).
  split; [exact Hd|]. split; [lia|]. split; [exact Hh|]. split; [lia|].
  exact (calculate_image_tokens_thin 2 5000 "high" Hd ltac:(lia) Hh ltac:(lia)).
Defined.

(** * Properties of the file helpers *)

(** ** Strings *)

Section StringFacts.

Import PyStr.

Local Open Scope string_scope.

Lemma append_assoc (a b c : string) : (a ++ b) ++ c = a ++ (b ++ c).
Proof. induction a as [|x a IH]; cbn; [reflexivity | rewrite IH; reflexivity]. Qed.

Lemma append_empty_r (a : string) : a ++ "" = a.
Proof. induction a as [|x a IH]; cbn; [reflexivity | rewrite IH; reflexivity]. Qed.

Lemma contains_app (c : ascii) (a b : string) :
  contains c (a ++ b) = contains c a || contains c b.
Proof.
  induction a as [|x a IH]; cbn; [reflexivity|].
  rewrite IH. apply orb_assoc.
Qed.

Lemma split_cons (sep : ascii) (s : string) :
  exists piece pieces, split sep s = piece :: pieces.
Proof.
  destruct s as [|c rest]; cbn; [eauto|].
  destruct (Ascii.eqb c sep); [eauto|].
  destruct (split sep rest); eauto.
Qed.

(** Without the separator there is one piece, the string itself. *)
Lemma split_none (sep : ascii) (s : string) :
  contains sep s = false -> split sep s = [s].
Proof.
  induction s as [|c rest IH]; cbn; [reflexivity|].
  intros H. apply orb_false_iff in H as [Hc Hrest].
  rewrite Hc, (IH Hrest). reflexivity.
Qed.

(** The first piece is what stands before the first separator. *)
Lemma split_app (sep : ascii) (a b : string) :
  contains sep a = false ->
  split sep (a ++ String sep b) = a :: split sep b.
Proof.
  induction a as [|c a IH]; cbn.
  - intros _. rewrite Ascii.eqb_refl. reflexivity.
  - intros H. apply orb_false_iff in H as [Hc Ha].
    rewrite Hc, (IH Ha). reflexivity.
Qed.

(** The first piece never holds the separator. *)
Lemma split_head (sep : ascii) (s : string) :
  exists piece pieces,
    split sep s = piece :: pieces /\ contains sep piece = false.
Proof.
  induction s as [|c rest (piece & pieces & E & H)]; cbn.
  - eauto.
  - destruct (Ascii.eqb c sep) eqn:Ec; [eauto|].
    rewrite E. exists (String c piece), pieces. cbn. rewrite Ec, H. auto.
Qed.

Lemma startswith_app (p rest : string) : startswith (p ++ rest) p = true.
Proof.
  unfold startswith. induction p as [|c p IH].
  { destruct rest; reflexivity. }
  cbn [append String.prefix].
  destruct (Ascii.ascii_dec c c); [assumption | contradiction].
Qed.

Lemma startswith_inv (s p : string) :
  startswith s p = true -> exists rest, s = p ++ rest.
Proof.
  unfold startswith. revert s.
  induction p as [|c p IH]; intros s.
  - intros _. exists s. reflexivity.
  - destruct s as [|c' s]; cbn [String.prefix append]; [discriminate|].
    destruct (Ascii.ascii_dec c c') as [<-|]; [|discriminate].
    intros H. destruct (IH s H) as [rest ->]. eauto.
Qed.

Lemma lstrip_not_space (s : string) : starts_with_space (lstrip s) = false.
Proof.
  induction s as [|c rest IH]; cbn; [reflexivity|].
  destruct (isspace c) eqn:E; [assumption | cbn; assumption].
Qed.

Lemma rstrip_not_space (s : string) : ends_with_space (rstrip s) = false.
Proof.
  induction s as [|c rest IH]; cbn; [reflexivity|].
  destruct (rstrip rest) as [|c' kept] eqn:E.
  - destruct (isspace c) eqn:Ec; cbn; [reflexivity | assumption].
  - cbn in *. assumption.
Qed.

Lemma rstrip_keeps_start (s : string) :
  starts_with_space s = false -> starts_with_space (rstrip s) = false.
Proof.
  destruct s as [|c rest]; cbn; [reflexivity|].
  intros Hc. destruct (rstrip rest); [rewrite Hc|]; cbn; auto.
Qed.

(** What [strip] returns neither begins nor ends with white space. *)
Lemma strip_trimmed (s : string) : trimmed (strip s) = true.
Proof.
  unfold trimmed, strip.
  rewrite rstrip_not_space, rstrip_keeps_start by apply lstrip_not_space.
  reflexivity.
Qed.

Lemma contains_lstrip (c : ascii) (s : string) :
  contains c s = false -> contains c (lstrip s) = false.
Proof.
  induction s as [|x rest IH]; cbn; [reflexivity|].
  intros H. destruct (isspace x); [|exact H].
  apply orb_false_iff in H as [_ H]. auto.
Qed.

Lemma contains_rstrip (c : ascii) (s : string) :
  contains c s = false -> contains c (rstrip s) = false.
Proof.
  induction s as [|x rest IH]; cbn; [reflexivity|].
  intros H. apply orb_false_iff in H as [Hx H]. specialize (IH H).
  destruct (rstrip rest) as [|y kept].
  - destruct (isspace x); cbn; [reflexivity | rewrite Hx; reflexivity].
  - cbn in *. rewrite Hx. exact IH.
Qed.

Lemma contains_strip (c : ascii) (s : string) :
  contains c s = false -> contains c (strip s) = false.
Proof. intros H. apply contains_rstrip, contains_lstrip, H. Qed.

Lemma lstrip_blank (a : string) : blank a = true -> lstrip a = "".
Proof.
  induction a as [|c a IH]; cbn; [reflexivity|].
  intros H. apply andb_true_iff in H as [Hc Ha]. rewrite Hc. auto.
Qed.

Lemma rstrip_blank (a : string) : blank a = true -> rstrip a = "".
Proof.
  induction a as [|c a IH]; cbn; [reflexivity|].
  intros H. apply andb_true_iff in H as [Hc Ha]. rewrite (IH Ha), Hc.
  reflexivity.
Qed.

Lemma lstrip_app (a m : string) :
  blank a = true -> starts_with_space m = false -> lstrip (a ++ m) = m.
Proof.
  induction a as [|c a IH]; cbn.
  - intros _ Hm. destruct m as [|x m]; cbn in *; [reflexivity|].
    rewrite Hm. reflexivity.
  - intros H Hm. apply andb_true_iff in H as [Hc Ha]. rewrite Hc. auto.
Qed.

Lemma rstrip_app (m b : string) :
  blank b = true -> ends_with_space m = false -> rstrip (m ++ b) = m.
Proof.
  intros Hb. induction m as [|c m IH]; cbn [append].
  - intros _. apply rstrip_blank, Hb.
  - intros Hm. cbn [rstrip]. destruct m as [|x m].
    + cbn [append] in *. rewrite (rstrip_blank b Hb).
      cbn in Hm. rewrite Hm. reflexivity.
    + rewrite IH by exact Hm. reflexivity.
Qed.

(** [strip] takes the white space off both ends, and nothing else. *)
Lemma strip_app (a m b : string) :
  blank a = true -> blank b = true -> trimmed m = true ->
  strip (a ++ m ++ b) = m.
Proof.
  intros Ha Hb Hm. unfold trimmed in Hm.
  apply andb_true_iff in Hm as [Hs He].
  apply negb_true_iff in Hs, He. unfold strip.
  destruct m as [|x m].
  - cbn [append]. rewrite lstrip_blank; [reflexivity|].
    clear -Ha Hb. induction a as [|c a IH]; cbn in *; [assumption|].
    apply andb_true_iff in Ha as [Hc Ha]. rewrite Hc. auto.
  - rewrite lstrip_app; [|assumption|exact Hs].
    apply rstrip_app; assumption.
Qed.

End StringFacts.

(** ** The two tables *)

Section TableFacts.

Import PyStr Files FilesCode.

Local Open Scope string_scope.

Lemma mem_In (x : string) (l : list string) : mem x l = true -> In x l.
Proof.
  unfold mem. intros H. apply existsb_exists in H as (y & Hy & E).
  apply String.eqb_eq in E. subst. assumption.
Qed.

Lemma get_In {V : Type} (k : string) (d : list (string * V)) (v : V) :
  Py.get k d = Some v -> In (k, v) d.
Proof.
  induction d as [|[k' v'] d IH]; cbn; [discriminate|].
  destruct (String.eqb_spec k k') as [->|_].
  - intros [= ->]. auto.
  - auto.
Qed.

(** X10. A type filed under ["multimodal"] always has an extension, one
    of the four image extensions. *)
Theorem multimodal_has_image_extension (mime_type : string) :
  determine_file_use_case mime_type = "multimodal" ->
  In (get_file_extension mime_type) [".jpg"; ".webp"; ".png"; ".gif"].
Proof.
  unfold determine_file_use_case.
  destruct (mem mime_type multimodal_types) eqn:E.
  - intros _. apply mem_In in E.
    assert (H : forallb
                  (fun m => mem (get_file_extension m)
                              [".jpg"; ".webp"; ".png"; ".gif"])
                  multimodal_types = true) by (vm_compute; reflexivity).
    rewrite forallb_forall in H. apply mem_In, H, E.
  - destruct (mem mime_type my_files_types); discriminate.
Qed.

(** X11. A type filed under ["my_files"] has an extension, except
    ["application/x-latext"]: the list of document types spells it so,
    the table of extensions has ["application/x-latex"]. *)
Theorem my_files_extension (mime_type : string) :
  determine_file_use_case mime_type = "my_files" ->
  (get_file_extension mime_type = "" <-> mime_type = "application/x-latext").
Proof.
  unfold determine_file_use_case.
  destruct (mem mime_type multimodal_types) eqn:E1; [discriminate|].
  destruct (mem mime_type my_files_types) eqn:E2; [|discriminate].
  intros _. apply mem_In in E2.
  assert (H : forallb
                (fun m => Bool.eqb (String.eqb (get_file_extension m) "")
                            (String.eqb m "application/x-latext"))
                my_files_types = true) by (vm_compute; reflexivity).
  rewrite forallb_forall in H. specialize (H _ E2).
  apply Bool.eqb_prop in H.
  rewrite <- !String.eqb_eq, H. reflexivity.
Qed.

(** X12. An extension is empty -- the type is not in the table -- or is a
    dot followed by at least one character. *)
Theorem get_file_extension_dot (mime_type : string) :
  match Py.get mime_type extension_mapping with
  | None => get_file_extension mime_type = ""
  | Some _ =>
      exists c rest, get_file_extension mime_type = "." ++ String c rest
  end.
Proof.
  unfold get_file_extension.
  destruct (Py.get mime_type extension_mapping) as [extension|] eqn:E;
    [|reflexivity].
  apply get_In in E.
  assert (H : forallb
                (fun kv : string * string =>
                   match snd kv with
                   | String "." (String _ _) => true
                   | _ => false
                   end)
                extension_mapping = true) by (vm_compute; reflexivity).
  rewrite forallb_forall in H. specialize (H _ E). cbn [snd] in H.
  destruct extension as [|c0 ext]; [discriminate|].
  destruct (Ascii.eqb_spec c0 ".") as [->|Hne].
  - destruct ext as [|c rest]; [discriminate|].
    exists c, rest. reflexivity.
  - exfalso. revert H Hne.
    destruct c0 as [[|] [|] [|] [|] [|] [|] [|] [|]];
      try discriminate. intros _ Hne. apply Hne. reflexivity.
Qed.

End TableFacts.

Lemma multimodal_has_image_extension_witness :
  FilesCode.determine_file_use_case "image/webp" = "multimodal"
  /\ In (FilesCode.get_file_extension "image/webp")
        [".jpg"; ".webp"; ".png"; ".gif"].
Proof.
  split; [reflexivity|].
  exact (multimodal_has_image_extension "image/webp" eq_refl).
Defined.

Lemma my_files_extension_witness :
  FilesCode.determine_file_use_case "application/x-latext" = "my_files"
  /\ (FilesCode.get_file_extension "application/x-latext" = ""
      <-> "application/x-latext" = "application/x-latext").
Proof.
  split; [reflexivity|].
  exact (my_files_extension "application/x-latext" eq_refl).
Defined.

(** ** Fetching a file *)

Section FetchFacts.

Import PyStr Files FilesCode.

Context {E : Type} {env : Environment E}.

Local Open Scope string_scope.

(** The part of a data URL between ["data:"] and the first [;] or [:]. *)
Lemma data_url_type (rest : string) (log : list event) :
  exists mime_type,
    (head <- item (split ";" ("data:" ++ rest)) 0 ;;
     item (E := E) (split ":" head) 1)%io log
    = (log, Return mime_type)
    /\ forall kept,
         contains ";" kept = false -> contains ":" kept = false ->
         (rest = kept \/ exists more, rest = kept ++ String ";" more) ->
         mime_type = kept.
Proof.
  destruct (split_head ";" rest) as (piece & pieces & Es & Hpiece).
  destruct (split_cons ":" piece) as (sub & subs & Esub).
  assert (Eurl : split ";" ("data:" ++ rest) = ("data:" ++ piece) :: pieces).
  { cbn. rewrite Es. reflexivity. }
  assert (Ehead : split ":" ("data:" ++ piece) = "data" :: sub :: subs).
  { cbn. rewrite Esub. reflexivity. }
  exists sub. split.
  - unfold bind, item. rewrite Eurl. cbn. rewrite Esub. reflexivity.
  - intros kept Hsemi Hcolon Hrest.
    assert (piece = kept).
    { destruct Hrest as [->|[more ->]].
      - rewrite (split_none ";" kept Hsemi) in Es. congruence.
      - rewrite (split_app ";" kept more Hsemi) in Es. congruence. }
    subst piece. rewrite (split_none ":" kept Hcolon) in Esub. congruence.
Qed.

(** X13. A data URL ["data:<type>;<parameters>,<data>"] -- no [;], [:] or
    [,] in the type, no [,] in the parameters or the data -- yields the
    decoded data and the type, or what [b64decode] raises; no client is
    made. *)
Theorem get_file_content_data_url
  (mime_type parameters data : string) (log : list event) :
  contains ";" mime_type = false -> contains ":" mime_type = false ->
  contains "," mime_type = false -> contains "," parameters = false ->
  contains "," data = false ->
  get_file_content
    ("data:" ++ mime_type ++ ";" ++ parameters ++ "," ++ data) log
  = (log,
     match b64decode data with
     | inr file_content => Return (Some file_content, Some mime_type)
     | inl e => Raised (Foreign e)
     end).
Proof.
  intros Hsemi Hcolon Hcomma Hparams Hdata.
  unfold get_file_content. rewrite startswith_app.
  destruct (data_url_type (mime_type ++ ";" ++ parameters ++ "," ++ data) log)
    as (m & Em & Hm).
  assert (m = mime_type) as ->.
  { apply Hm; try assumption. right. eexists. reflexivity. }
  unfold bind at 1. rewrite Em.
  assert (Esplit :
    split "," ("data:" ++ mime_type ++ ";" ++ parameters ++ "," ++ data)
    = [("data:" ++ mime_type ++ ";" ++ parameters); data]).
  { replace ("data:" ++ mime_type ++ ";" ++ parameters ++ "," ++ data)
      with (("data:" ++ mime_type ++ ";" ++ parameters) ++ String "," data).
    - rewrite split_app, (split_none "," data Hdata); [reflexivity|].
      rewrite !contains_app, Hcomma, Hparams. reflexivity.
    - cbn. rewrite !append_assoc. reflexivity. }
  unfold bind, item. rewrite Esplit. cbn.
  destruct (b64decode data); reflexivity.
Qed.

(** X14. On a URL that begins with ["data:"] no client is made and
    nothing is sent; when the URL holds no comma the call raises
    [IndexError], before anything is decoded. *)
Theorem get_file_content_data_no_client (url : string) (log : list event) :
  startswith url "data:" = true ->
  fst (get_file_content url log) = log
  /\ (contains "," url = false ->
      get_file_content url log = (log, Raised IndexError)).
Proof.
  intros Hdata. destruct (startswith_inv url "data:" Hdata) as [rest ->].
  unfold get_file_content. rewrite Hdata.
  destruct (data_url_type rest log) as (m & Em & _).
  split.
  - unfold bind at 1. rewrite Em. unfold bind, item.
    destruct (nth_error (split "," ("data:" ++ rest)) 1) as [data|]; cbn;
      [|reflexivity].
    destruct (b64decode data); reflexivity.
  - intros Hcomma. unfold bind at 1. rewrite Em. unfold bind, item.
    rewrite (split_none "," _ Hcomma). reflexivity.
Qed.

(** X15. A data URL without [;] (["data:<head>,<data>"], as for data
    that is not base64): the type returned is all that follows
    ["data:"], comma and data included. *)
Theorem get_file_content_data_no_semicolon
  (head data : string) (log : list event) :
  contains ";" head = false -> contains ":" head = false ->
  contains "," head = false ->
  contains ";" data = false -> contains ":" data = false ->
  contains "," data = false ->
  get_file_content ("data:" ++ head ++ "," ++ data) log
  = (log,
     match b64decode data with
     | inr file_content =>
         Return (Some file_content, Some (head ++ "," ++ data))
     | inl e => Raised (Foreign e)
     end).
Proof.
  intros Hsemi Hcolon Hcomma Hsemi' Hcolon' Hcomma'.
  unfold get_file_content. rewrite startswith_app.
  destruct (data_url_type (head ++ "," ++ data) log) as (m & Em & Hm).
  assert (m = head ++ "," ++ data) as ->.
  { apply Hm.
    - rewrite !contains_app, Hsemi, Hsemi'. reflexivity.
    - rewrite !contains_app, Hcolon, Hcolon'. reflexivity.
    - left. reflexivity. }
  unfold bind at 1. rewrite Em.
  assert (Esplit : split "," ("data:" ++ head ++ "," ++ data)
                   = [("data:" ++ head); data]).
  { replace ("data:" ++ head ++ "," ++ data)
      with (("data:" ++ head) ++ String "," data) by reflexivity.
    rewrite split_app, (split_none "," data Hcomma'); [reflexivity|].
    rewrite contains_app, Hcomma. reflexivity. }
  unfold bind, item. rewrite Esplit. cbn.
  destruct (b64decode data); reflexivity.
Qed.

Lemma get_file_content_remote (url : string) (log : list event) :
  startswith url "data:" = false ->
  get_file_content url log
  = ((log ++ [NewClient; request url; Close])%list,
     match answer url with
     | inl e => Raised (Foreign e)
     | inr r =>
         if (status_code r =? 200)%Z
         then Return (Some (content r), Some (header_type r))
         else Return (None, None)
     end).
Proof.
  intros Hdata. unfold get_file_content. rewrite Hdata.
  unfold request, answer, header_type.
  assert (Happ : forall a b c : event,
            (((log ++ [a]) ++ [b]) ++ [c] = log ++ [a; b; c])%list).
  { intros. rewrite <- !app_assoc. reflexivity. }
  assert (Hdone : forall (a : event) (x : E + response),
    (let (log', r) :=
       (r <- (_ <- emit a ;; call x) ;;
        if negb (status_code r =? 200)%Z then ret (None, None)
        else
          let file_content := content r in
          head <- item (split ";" (match content_type r with
                                   | Some v => v
                                   | None => ""
                                   end)) 0 ;;
          let mime_type := strip head in
          ret (Some file_content, Some mime_type))%io
         (log ++ [NewClient])%list in
     let (log'', r') := emit (E := E) Close log' in
     match r' with
     | Return _ => (log'', r)
     | Raised e => (log'', Raised e)
     end)
    = ((log ++ [NewClient; a; Close])%list,
       match x with
       | inl e => Raised (Foreign e)
       | inr r =>
           if (status_code r =? 200)%Z
           then Return (Some (content r),
                        Some match split ";" (match content_type r with
                                              | Some v => v
                                              | None => ""
                                              end) with
                             | piece :: _ => strip piece
                             | [] => ""
                             end)
           else Return (None, None)
       end)).
  { intros a x. unfold bind, emit, call, item, ret, raise.
    destruct x as [e|r]; cbn; [rewrite Happ; reflexivity|].
    destruct (status_code r =? 200)%Z; cbn; [|rewrite Happ; reflexivity].
    destruct (split_cons ";" (match content_type r with
                              | Some v => v | None => "" end))
      as (piece & pieces & ->).
    cbn. rewrite Happ. reflexivity. }
  unfold try_finally. unfold bind at 1. unfold emit at 1.
  destruct cf_file_url as [cf|]; [destruct (String.eqb cf "")|];
    cbn [negb]; apply Hdone.
Qed.

Lemma blank_without (c : ascii) (a : string) :
  isspace c = false -> blank a = true -> contains c a = false.
Proof.
  intros Hc. induction a as [|x a IH]; cbn; [reflexivity|].
  intros H. apply andb_true_iff in H as [Hx Ha]. rewrite (IH Ha).
  destruct (Ascii.eqb_spec x c) as [->|_]; [congruence | reflexivity].
Qed.

(** X16. On any other URL a client is made, asked once -- the cloud
    function when one is set, else the URL itself through the proxy, with
    a timeout of 60 -- and closed, in this order; it is closed as well
    when the request raises, and the exception is passed on. *)
Theorem get_file_content_closes_client (url : string) (log : list event) :
  startswith url "data:" = false ->
  fst (get_file_content url log)
  = (log ++ [NewClient; request url; Close])%list
  /\ forall e,
       answer url = inl e ->
       snd (get_file_content url log) = Raised (Foreign e).
Proof.
  intros Hdata. rewrite (get_file_content_remote url log Hdata).
  split; [reflexivity|]. intros e ->. reflexivity.
Qed.

(** X17. When the request is answered: a status other than 200 gives
    [(None, None)]; status 200 gives the content as received and a type
    that holds no [;] and neither begins nor ends with white space, empty
    when there is no [Content-Type] header. *)
Theorem get_file_content_answered
  (url : string) (log : list event) (r : response) :
  startswith url "data:" = false -> answer url = inr r ->
  (status_code r <> 200%Z ->
   snd (get_file_content url log) = Return (None, None))
  /\ (status_code r = 200%Z ->
      exists mime_type,
        snd (get_file_content url log)
        = Return (Some (content r), Some mime_type)
        /\ contains ";" mime_type = false
        /\ trimmed mime_type = true
        /\ (content_type r = None -> mime_type = "")).
Proof.
  intros Hdata Hr. rewrite (get_file_content_remote url log Hdata), Hr.
  cbn [snd]. split.
  - intros Hs. apply Z.eqb_neq in Hs. rewrite Hs. reflexivity.
  - intros Hs. rewrite Hs, Z.eqb_refl.
    exists (header_type r). split; [reflexivity|].
    unfold header_type.
    destruct (split_head ";" (match content_type r with
                              | Some v => v | None => "" end))
      as (piece & pieces & Es & Hpiece).
    rewrite Es. split; [apply contains_strip, Hpiece|].
    split; [apply strip_trimmed|].
    intros Hnone. rewrite Hnone in Es. cbn in Es.
    injection Es as <- _. reflexivity.
Qed.

(** X18. A header [Content-Type: <type>;<parameters>], with white space
    around the type or not, gives the type alone. *)
Theorem get_file_content_header
  (url : string) (log : list event) (r : response)
  (before mime_type after parameters : string) :
  startswith url "data:" = false -> answer url = inr r ->
  status_code r = 200%Z ->
  blank before = true -> blank after = true ->
  trimmed mime_type = true -> contains ";" mime_type = false ->
  content_type r
  = Some (before ++ mime_type ++ after ++ ";" ++ parameters) ->
  snd (get_file_content url log)
  = Return (Some (content r), Some mime_type).
Proof.
  intros Hdata Hr Hs Hb Ha Ht Hsemi Hct.
  rewrite (get_file_content_remote url log Hdata), Hr.
  cbn [snd]. rewrite Hs, Z.eqb_refl. unfold header_type. rewrite Hct.
  replace (before ++ mime_type ++ after ++ ";" ++ parameters)
    with ((before ++ mime_type ++ after) ++ String ";" parameters)
    by (rewrite !append_assoc; reflexivity).
  rewrite split_app.
  - rewrite strip_app by assumption. reflexivity.
  - rewrite !contains_app, Hsemi.
    rewrite (blank_without ";" before), (blank_without ";" after)
      by (reflexivity || assumption).
    reflexivity.
Qed.

End FetchFacts.

(** The same, in the small environment. *)

Lemma get_file_content_data_url_witness :
  PyStr.contains ";" "text/plain" = false
  /\ PyStr.contains ":" "text/plain" = false
  /\ PyStr.contains "," "text/plain" = false
  /\ PyStr.contains "," "base64" = false
  /\ PyStr.contains "," "aGk=" = false
  /\ FilesCode.get_file_content (env := Offline.environment)
       "data:text/plain;base64,aGk=" []
     = ([], Files.Return (Some "hi", Some "text/plain")).
Proof.
  repeat (split; [reflexivity|]).
  exact (get_file_content_data_url (env := Offline.environment)
           "text/plain" "base64" "aGk=" []
           eq_refl eq_refl eq_refl eq_refl eq_refl).
Defined.

Lemma get_file_content_data_no_client_witness :
  PyStr.startswith "data:text/plain" "data:" = true
  /\ fst (FilesCode.get_file_content (env := Offline.environment)
            "data:text/plain" []) = []
  /\ (PyStr.contains "," "data:text/plain" = false ->
      FilesCode.get_file_content (env := Offline.environment)
        "data:text/plain" []
      = ([], Files.Raised Files.IndexError)).
Proof.
  split; [reflexivity|].
  exact (get_file_content_data_no_client (env := Offline.environment)
           "data:text/plain" [] eq_refl).
Defined.

Lemma get_file_content_data_no_semicolon_witness :
  PyStr.contains ";" "text/plain" = false
  /\ PyStr.contains ":" "text/plain" = false
  /\ PyStr.contains "," "text/plain" = false
  /\ PyStr.contains ";" "aGk=" = false
  /\ PyStr.contains ":" "aGk=" = false
  /\ PyStr.contains "," "aGk=" = false
  /\ FilesCode.get_file_content (env := Offline.environment)
       "data:text/plain,aGk=" []
     = ([], Files.Return (Some "hi", Some "text/plain,aGk=")).
Proof.
  repeat (split; [reflexivity|]).
  exact (get_file_content_data_no_semicolon (env := Offline.environment)
           "text/plain" "aGk=" []
           eq_refl eq_refl eq_refl eq_refl eq_refl eq_refl).
Defined.

Lemma get_file_content_closes_client_witness :
  PyStr.startswith "https://example.org/down" "data:" = false
  /\ fst (FilesCode.get_file_content (env := Offline.environment)
            "https://example.org/down" [])
     = [Files.NewClient;
        Files.Get "https://example.org/down"
          (Some "http://127.0.0.1:7890") 60;
        Files.Close]
  /\ forall e,
       FilesCode.answer (env := Offline.environment)
         "https://example.org/down" = inl e ->
       snd (FilesCode.get_file_content (env := Offline.environment)
              "https://example.org/down" [])
       = Files.Raised (Files.Foreign e).
Proof.
  split; [reflexivity|].
  exact (get_file_content_closes_client (env := Offline.environment)
           "https://example.org/down" [] eq_refl).
Defined.

Lemma get_file_content_answered_witness :
  PyStr.startswith "https://example.org/a.png" "data:" = false
  /\ FilesCode.answer (env := Offline.environment)
       "https://example.org/a.png" = inr Offline.picture
  /\ (Files.status_code Offline.picture <> 200 ->
      snd (FilesCode.get_file_content (env := Offline.environment)
             "https://example.org/a.png" [])
      = Files.Return (None, None))
  /\ (Files.status_code Offline.picture = 200 ->
      exists mime_type,
        snd (FilesCode.get_file_content (env := Offline.environment)
               "https://example.org/a.png" [])
        = Files.Return (Some (Files.content Offline.picture), Some mime_type)
        /\ PyStr.contains ";" mime_type = false
        /\ PyStr.trimmed mime_type = true
        /\ (Files.content_type Offline.picture = None -> mime_type = "")).
Proof.
  split; [reflexivity|]. split; [reflexivity|].
  exact (get_file_content_answered (env := Offline.environment)
           "https://example.org/a.png" [] Offline.picture
           eq_refl eq_refl).
Defined.

Lemma get_file_content_header_witness :
  PyStr.startswith "https://example.org/a.png" "data:" = false
  /\ FilesCode.answer (env := Offline.environment)
       "https://example.org/a.png" = inr Offline.picture
  /\ PyStr.blank " " = true
  /\ PyStr.trimmed "image/png" = true
  /\ PyStr.contains ";" "image/png" = false
  /\ snd (FilesCode.get_file_content (env := Offline.environment)
            "https://example.org/a.png" [])
     = Files.Return (Some "PNG", Some "image/png").
Proof.
  repeat (split; [reflexivity|]).
  exact (get_file_content_header (env := Offline.environment)
           "https://example.org/a.png" [] Offline.picture
           " " "image/png" " " " charset=binary"
           eq_refl eq_refl eq_refl eq_refl eq_refl eq_refl eq_refl eq_refl).
Defined.
